(** * x509-certificate-exporter: the certificate readers of
      [internal/certificate.go]

    A shallow embedding of the PEM decoder loop ([parsePEM]), the three
    source readers ([readAndParsePEMFile], [readAndParseYAMLFile],
    [readAndParseKubeSecret]) and the dispatcher ([certificateRef.parse]),
    followed by the properties the specification states about them.

    Go values are modelled as follows.
    - [[]byte] and [string] are both byte sequences; the conversions
      [string(b)] and [[]byte(s)] keep the bytes, so both are [string] here
      (an [ascii] is one byte).
    - An [error] is identified with the text of its [Error()] method.
    - A Go result [(v, err)] is the pair [(v, e)] with [e : option error];
      [nil] slices are [[]].
    - Calls into the Go standard library that reach outside the package
      (files, the [yq] subprocess, the base64, PEM, X.509 and path
      packages) are the fields of the class [Externals]; the code under
      verification is parametric in them.  [strings.Split],
      [strings.TrimRight], [DecodedLen] and [%d] are written out. *)

From Stdlib Require Import ZArith String Ascii List Lia DecimalString.
From stdpp Require Import base gmap strings list.

Import ListNotations.
Local Open Scope Z_scope.

(** ** Values *)

Definition bytes := string.
Definition error := string.

(** What running a Go function can do: return, panic (nil dereference,
    index out of range), or still be looping when the bound on the number
    of iterations of an unbounded [for] is used up. *)
Inductive outcome (A : Type) : Type :=
| Returns (a : A)
| Panics
| OutOfFuel.
Arguments Returns {A} a.
Arguments Panics {A}.
Arguments OutOfFuel {A}.

Definition obind {A B : Type} (m : outcome A) (k : A -> outcome B) : outcome B :=
  match m with
  | Returns a => k a
  | Panics => Panics
  | OutOfFuel => OutOfFuel
  end.

Notation "'call' x <- m ; k" := (obind m (fun x => k))
  (at level 10, x pattern, m at level 100, k at level 200).

(** [type YAMLCertFormat int] with its two declared constants. *)
Definition YAMLCertFormat := Z.
Definition YAMLCertFormatFile : YAMLCertFormat := 0.
Definition YAMLCertFormatBase64 : YAMLCertFormat := 1.

(** [type YAMLCertRef struct] *)
Record YAMLCertRef : Type := {
  CertMatchExpr : string;
  IDMatchExpr : string;
  Format : YAMLCertFormat
}.

(** [var DefaultYamlPaths] *)
Definition DefaultYamlPaths : list YAMLCertRef := [
  {| CertMatchExpr := "clusters.[*].cluster.certificate-authority-data";
     IDMatchExpr := "clusters.[*].name";
     Format := YAMLCertFormatBase64 |};
  {| CertMatchExpr := "clusters.[*].cluster.certificate-authority";
     IDMatchExpr := "clusters.[*].name";
     Format := YAMLCertFormatFile |};
  {| CertMatchExpr := "users.[*].user.client-certificate-data";
     IDMatchExpr := "users.[*].name";
     Format := YAMLCertFormatBase64 |};
  {| CertMatchExpr := "users.[*].user.client-certificate";
     IDMatchExpr := "users.[*].name";
     Format := YAMLCertFormatFile |}
]%string.

(** [type certificateFormat int] with its three declared constants. *)
Definition certificateFormat := Z.
Definition certificateFormatPEM : certificateFormat := 0.
Definition certificateFormatYAML : certificateFormat := 1.
Definition certificateFormatKubeSecret : certificateFormat := 2.

(** [pem.Block] *)
Record Block : Type := {
  Type_ : string;
  Headers : gmap string string;
  Bytes : bytes
}.

(** The part of [v1.Secret] the reader looks at: [GetName()] and [Data]. *)
Record Secret : Type := {
  Name : string;
  Data : gmap string bytes
}.

(** ** The world outside the package *)

Class Externals (Certificate : Type) : Type := {
  (** [ioutil.ReadFile(path)] *)
  ioutil_ReadFile : string -> bytes * option error;
  (** [exec.Command("yq", "r", file, expr).CombinedOutput()]: standard
      output and standard error interleaved, and the exit error. *)
  yq_CombinedOutput : string -> string -> bytes * option error;
  (** [exec.Command("yq", "r", file, expr).Output()]: standard output
      only, and the exit error. *)
  yq_Output : string -> string -> bytes * option error;
  (** [base64.StdEncoding.Decode(dst, src)]: the contents of [dst] after
      the call, the number of bytes written and the error. *)
  base64_StdEncoding_Decode : bytes -> bytes -> bytes * nat * option error;
  (** [path.Join(a, b)] and [filepath.Dir(p)] *)
  path_Join : string -> string -> string;
  filepath_Dir : string -> string;
  (** [pem.Decode(data)]: the next block, or [nil], and the remainder. *)
  pem_Decode : bytes -> option Block * bytes;
  (** [x509.ParseCertificate(der)] *)
  x509_ParseCertificate : bytes -> error + Certificate
}.

(** ** Pieces of the Go standard library that are plain string functions *)

(** The one-character string holding a double quote. *)
Definition dquote : string := String (ascii_of_nat 34) EmptyString.

(** The newline separator, and the cutset ["\n"], the readers use. *)
Definition newline : ascii := ascii_of_nat 10.
Definition nl : string := String newline EmptyString.

(** [make([]byte, n)]: [n] zero bytes. *)
Fixpoint make_bytes (n : nat) : bytes :=
  match n with
  | O => EmptyString
  | S n => String zero (make_bytes n)
  end.

(** [base64.StdEncoding.DecodedLen(n)]: the padded encoding maps every
    four input bytes to at most three output bytes. *)
Definition base64_StdEncoding_DecodedLen (n : nat) : nat := (n / 4 * 3)%nat.

(** [%d] of a length. *)
Definition fmt_d (n : nat) : string := NilZero.string_of_uint (Nat.to_uint n).

(** Whether byte [c] occurs in [cutset]. *)
Fixpoint in_cutset (c : ascii) (cutset : string) : bool :=
  match cutset with
  | EmptyString => false
  | String d cutset => if Ascii.eqb c d then true else in_cutset c cutset
  end.

(** [strings.TrimRight(s, cutset)] for a cutset of one-byte characters:
    the longest prefix of [s] that does not end in a cutset byte. *)
Fixpoint strings_TrimRight (s cutset : string) : string :=
  match s with
  | EmptyString => EmptyString
  | String c s =>
    match strings_TrimRight s cutset with
    | EmptyString => if in_cutset c cutset then EmptyString else String c EmptyString
    | t => String c t
    end
  end.

(** [strings.Split(s, sep)] for a one-byte separator: the fields between
    the occurrences of [sep]; [n] separators give [n + 1] fields, so the
    empty string gives one empty field. *)
Fixpoint strings_Split (s : string) (sep : ascii) : list string :=
  match s with
  | EmptyString => [EmptyString]
  | String c s =>
    match strings_Split s sep with
    | [] => []
    | field :: fields =>
      if Ascii.eqb c sep then EmptyString :: field :: fields
      else String c field :: fields
    end
  end.

(** ** The readers *)

Section Readers.

Context {Certificate : Type} {ext : Externals Certificate}.

(** [type parsedCertificate struct] *)
Record parsedCertificate : Type := {
  cert : Certificate;
  userID : string;
  yqMatchExpr : string
}.

(** [type certificateRef struct] *)
Record certificateRef : Type := {
  path : string;
  format : certificateFormat;
  certificates : list parsedCertificate;
  userIDs : list string;
  yamlPaths : list YAMLCertRef;
  kubeSecret : option Secret
}.

(** The message of line 205. *)
Definition malformedError (err : error) : error :=
  "tried to parse malformed x509 data, " +:+ err.

(** The [for] loop of [parsePEM]; [fuel] bounds the iterations. *)
Fixpoint parsePEM_loop (fuel : nat) (data : bytes) (output : list Certificate)
  : outcome (list Certificate * option error) :=
  match fuel with
  | O => OutOfFuel
  | S fuel =>
    let '(block, rest) := pem_Decode data in
    match block with
    | None => Returns (output, None)
    | Some block =>
      match x509_ParseCertificate (Bytes block) with
      | inl err =>
        Returns ([], Some (malformedError err))
      | inr cert => parsePEM_loop fuel rest (output ++ [cert])
      end
    end
  end.

(** [func parsePEM(data []byte) ([]*x509.Certificate, error)].  Every
    iteration that goes on continues with the remainder [pem.Decode]
    returned, which is shorter than its input, so one more iteration than
    there are bytes is enough. *)
Definition parsePEM (data : bytes) : outcome (list Certificate * option error) :=
  parsePEM_loop (S (String.length data)) data [].

(** [func readAndParsePEMFile(path string) ([]*parsedCertificate, error)] *)
Definition readAndParsePEMFile (path : string)
  : outcome (list parsedCertificate * option error) :=
  let '(contents, err) := ioutil_ReadFile path in
  match err with
  | Some err => Returns ([], Some err)
  | None =>
    let output : list parsedCertificate := [] in
    call (certs, err) <- parsePEM contents;
    match err with
    | Some err => Returns ([], Some err)
    | None =>
      Returns
        (fold_left
           (fun output cert =>
              output ++ [{| cert := cert; userID := ""; yqMatchExpr := "" |}])
           certs output,
         None)
    end
  end.

(** Lines 133-143 of [readAndParseYAMLFile]: the bytes handed to the PEM
    decoder for one pair, by the declared format.  The results of
    [Decode] other than the buffer are dropped, as in the source; a format
    that is neither constant leaves [decodedCerts] nil. *)
Definition decodeRawCerts (filePath : string) (exprs : YAMLCertRef) (rawCerts : bytes)
  : bytes * option error :=
  if Format exprs =? YAMLCertFormatBase64 then
    let decodedCerts :=
      make_bytes (base64_StdEncoding_DecodedLen (String.length rawCerts)) in
    let '(decodedCerts, _, _) := base64_StdEncoding_Decode decodedCerts rawCerts in
    (decodedCerts, None)
  else if Format exprs =? YAMLCertFormatFile then
    let certPath := path_Join (filepath_Dir filePath) rawCerts in
    ioutil_ReadFile (strings_TrimRight certPath nl)
  else
    (EmptyString, None).

(** Lines 151-156: the lines of the identity output that are not empty. *)
Definition collectUserIDs (rawUserIDs : bytes) : list string :=
  fold_left
    (fun userIDs userID =>
       if String.eqb userID "" then userIDs else userIDs ++ [userID])
    (strings_Split rawUserIDs newline) [].

(** Lines 161-167: one record per certificate, labelled by position.
    [userIDs[index]] panics when [index] is out of range. *)
Fixpoint appendRecords (certs : list Certificate) (index : nat)
    (userIDs : list string) (exprs : YAMLCertRef)
    (output : list parsedCertificate) : outcome (list parsedCertificate) :=
  match certs with
  | [] => Returns output
  | cert :: certs =>
    match userIDs !! index with
    | None => Panics
    | Some userID =>
      appendRecords certs (S index) userIDs exprs
        (output ++ [{| cert := cert; userID := userID;
                       yqMatchExpr := CertMatchExpr exprs |}])
    end
  end.

(** The message of line 158. *)
Definition labelCountError (filePath : string) (ids certs : nat) (expr : string)
  : error :=
  "failed to parse some labels in " +:+ filePath +:+ " (got " +:+ fmt_d ids
  +:+ " IDs but " +:+ fmt_d certs +:+ " certs for " +:+ dquote +:+ expr
  +:+ dquote +:+ ")".

(** Lines 145-167: decode the certificates, fetch the labels, compare the
    counts and append the records.  [(output', None)] lets the loop go on
    with [output']; [([], Some err)] is [return nil, err]. *)
Definition correlate (filePath : string) (exprs : YAMLCertRef)
    (decodedCerts : bytes) (output : list parsedCertificate)
  : outcome (list parsedCertificate * option error) :=
  call (certs, err) <- parsePEM decodedCerts;
  match err with
  | Some err => Returns ([], Some err)
  | None =>
    let '(rawUserIDs, _) := yq_Output filePath (IDMatchExpr exprs) in
    let userIDs := collectUserIDs rawUserIDs in
    if negb (length userIDs =? length certs)%nat then
      Returns ([], Some (labelCountError filePath (length userIDs)
                           (length certs) (IDMatchExpr exprs)))
    else
      call output <- appendRecords certs 0 userIDs exprs output;
      Returns (output, None)
  end.

(** One iteration of the loop over [yamlPaths] (lines 125-167), with the
    same convention for its result as [correlate]; [continue] is
    [(output, None)]. *)
Definition yamlPair (filePath : string) (exprs : YAMLCertRef)
    (output : list parsedCertificate)
  : outcome (list parsedCertificate * option error) :=
  let '(rawCerts, err) := yq_CombinedOutput filePath (CertMatchExpr exprs) in
  match err with
  | Some err => Returns ([], Some (err +:+ " | stderr: " +:+ rawCerts))
  | None =>
    if (String.length rawCerts =? 0)%nat then Returns (output, None)
    else
      let '(decodedCerts, err) := decodeRawCerts filePath exprs rawCerts in
      match err with
      | Some err => Returns ([], Some err)
      | None => correlate filePath exprs decodedCerts output
      end
  end.

(** The loop of [readAndParseYAMLFile] and its final [return output, nil]. *)
Fixpoint readAndParseYAMLFile_loop (filePath : string)
    (yamlPaths : list YAMLCertRef) (output : list parsedCertificate)
  : outcome (list parsedCertificate * option error) :=
  match yamlPaths with
  | [] => Returns (output, None)
  | exprs :: yamlPaths =>
    call (output, err) <- yamlPair filePath exprs output;
    match err with
    | Some err => Returns ([], Some err)
    | None => readAndParseYAMLFile_loop filePath yamlPaths output
    end
  end.

(** [func readAndParseYAMLFile(filePath string, yamlPaths []YAMLCertRef)
    ([]*parsedCertificate, error)] *)
Definition readAndParseYAMLFile (filePath : string) (yamlPaths : list YAMLCertRef)
  : outcome (list parsedCertificate * option error) :=
  readAndParseYAMLFile_loop filePath yamlPaths [].

(** The message of line 176. *)
Definition missingKeyError (name key : string) : error :=
  "secret " +:+ dquote +:+ name +:+ dquote +:+ " has no key " +:+ dquote
  +:+ key +:+ dquote.

(** [func readAndParseKubeSecret(path string, secret *v1.Secret)
    ([]*parsedCertificate, error)]; a nil [secret] panics at
    [secret.Data]. *)
Definition readAndParseKubeSecret (path : string) (secret : option Secret)
  : outcome (list parsedCertificate * option error) :=
  let key : string := "tls.crt" in
  match secret with
  | None => Panics
  | Some secret =>
    match Data secret !! key with
    | None => Returns ([], Some (missingKeyError (Name secret) key))
    | Some _ =>
      call (certs, err) <- parsePEM (default (EmptyString : bytes) (Data secret !! key));
      match err with
      | Some err => Returns ([], Some err)
      | None =>
        let output : list parsedCertificate := [] in
        Returns
          (fold_left
             (fun output cert =>
                output ++ [{| cert := cert; userID := ""; yqMatchExpr := "" |}])
             certs output,
           None)
      end
    end
  end.

(** The assignment [cert.certificates = certs]. *)
Definition set_certificates (cert : certificateRef)
    (certs : list parsedCertificate) : certificateRef :=
  {| path := path cert; format := format cert; certificates := certs;
     userIDs := userIDs cert; yamlPaths := yamlPaths cert;
     kubeSecret := kubeSecret cert |}.

(** [func (cert *certificateRef) parse() error]: the receiver after the
    call, and the error. *)
Definition parse (cert : certificateRef) : outcome (certificateRef * option error) :=
  if format cert =? certificateFormatPEM then
    call (certs, err) <- readAndParsePEMFile (path cert);
    Returns (set_certificates cert certs, err)
  else if format cert =? certificateFormatYAML then
    call (certs, err) <- readAndParseYAMLFile (path cert) (yamlPaths cert);
    Returns (set_certificates cert certs, err)
  else if format cert =? certificateFormatKubeSecret then
    call (certs, err) <- readAndParseKubeSecret (path cert) (kubeSecret cert);
    Returns (set_certificates cert certs, err)
  else
    Returns (cert, None).

(** ** Vocabulary of the properties *)

(** The contract of [pem.Decode] that makes the loop of [parsePEM] end:
    a block is returned together with the remainder of the input, which
    is what follows the block. *)
Definition pem_Decode_consumes : Prop :=
  forall (data : bytes) (block : Block) (rest : bytes),
    pem_Decode data = (Some block, rest) ->
    (String.length rest < String.length data)%nat.

(** [located data block]: repeated calls of [pem.Decode], each on the
    remainder of the one before, come across [block] in [data]. *)
Inductive located : bytes -> Block -> Prop :=
| located_first (data : bytes) (block : Block) (rest : bytes) :
    pem_Decode data = (Some block, rest) -> located data block
| located_next (data : bytes) (skipped : Block) (rest : bytes) (block : Block) :
    pem_Decode data = (Some skipped, rest) -> located rest block ->
    located data block.

(** [encodes enc block]: the bytes [enc] are a well-formed PEM block; in
    front of any other bytes, the decoder finds [block] in them and
    returns those other bytes. *)
Definition encodes (enc : bytes) (block : Block) : Prop :=
  forall rest : bytes, pem_Decode (enc +:+ rest) = (Some block, rest).

(** [holds_no_block data]: the decoder finds no block in [data]. *)
Definition holds_no_block (data : bytes) : Prop := (pem_Decode data).1 = None.

(** [passed_over junk]: the bytes [junk] are part of no block; in front
    of any other bytes, the decoder finds what it finds without them. *)
Definition passed_over (junk : bytes) : Prop :=
  forall rest : bytes,
    match pem_Decode rest with
    | (Some block, rest') => pem_Decode (junk +:+ rest) = (Some block, rest')
    | (None, _) => holds_no_block (junk +:+ rest)
    end.

(** [well_laid (junk, enc) block]: one stretch of a laid-out buffer. *)
Definition well_laid (seg : bytes * bytes) (block : Block) : Prop :=
  passed_over seg.1 /\ encodes seg.2 block.

(** A buffer laid out as bytes that are passed over, a block, more such
    bytes, a block, and so on, and the bytes after the last block. *)
Fixpoint layout (segments : list (bytes * bytes)) (trailing : bytes) : bytes :=
  match segments with
  | [] => trailing
  | (junk, enc) :: segments => junk +:+ enc +:+ layout segments trailing
  end.

(** The concatenation of the given byte strings. *)
Fixpoint concat_bytes (parts : list bytes) : bytes :=
  match parts with
  | [] => EmptyString
  | part :: parts => part +:+ concat_bytes parts
  end.

(** What the loop of [parsePEM] makes of the blocks it is handed one by
    one: the certificates, or the error of the first that does not
    parse. *)
Fixpoint parse_blocks (blocks : list Block) (output : list Certificate)
  : list Certificate * option error :=
  match blocks with
  | [] => (output, None)
  | block :: blocks =>
    match x509_ParseCertificate (Bytes block) with
    | inl err => ([], Some (malformedError err))
    | inr cert => parse_blocks blocks (output ++ [cert])
    end
  end.

(** The record the direct-file and the secret readers wrap a certificate
    in: no identity, no expression. *)
Definition bare_record (c : Certificate) : parsedCertificate :=
  {| cert := c; userID := ""; yqMatchExpr := "" |}.

(** The record of a certificate found through [exprs] and labelled [id]. *)
Definition labelled (exprs : YAMLCertRef) (c : Certificate) (id : string)
  : parsedCertificate :=
  {| cert := c; userID := id; yqMatchExpr := CertMatchExpr exprs |}.

End Readers.

Arguments parsedCertificate Certificate : clear implicits.
Arguments certificateRef Certificate : clear implicits.

(** ** Worlds that differ in what the readers do not look at *)

Section Worlds.

Context {Certificate : Type}.

(** The world [ext], except that the identity query exits the way
    [status] says; its standard output is the same. *)
Definition with_label_status (status : string -> string -> option error)
    (ext : Externals Certificate) : Externals Certificate := {|
  ioutil_ReadFile := ioutil_ReadFile;
  yq_CombinedOutput := yq_CombinedOutput;
  yq_Output file expr := ((yq_Output file expr).1, status file expr);
  base64_StdEncoding_Decode := base64_StdEncoding_Decode;
  path_Join := path_Join;
  filepath_Dir := filepath_Dir;
  pem_Decode := pem_Decode;
  x509_ParseCertificate := x509_ParseCertificate
|}.

(** The world [ext], except that [Decode] reports the count and the
    error [report] says; what it leaves in the buffer is the same. *)
Definition with_decode_report (report : bytes -> bytes -> nat * option error)
    (ext : Externals Certificate) : Externals Certificate := {|
  ioutil_ReadFile := ioutil_ReadFile;
  yq_CombinedOutput := yq_CombinedOutput;
  yq_Output := yq_Output;
  base64_StdEncoding_Decode dst src :=
    ((base64_StdEncoding_Decode dst src).1.1, (report dst src).1, (report dst src).2);
  path_Join := path_Join;
  filepath_Dir := filepath_Dir;
  pem_Decode := pem_Decode;
  x509_ParseCertificate := x509_ParseCertificate
|}.

End Worlds.

(** The text an evaluator prints for the given values, one per line. *)
Fixpoint unlines (lines : list string) : string :=
  match lines with
  | [] => EmptyString
  | line :: lines => line +:+ nl +:+ unlines lines
  end.

(** [one_line s]: [s] is not empty and has no newline in it. *)
Definition one_line (s : string) : Prop :=
  s <> EmptyString /\ in_cutset newline s = false.


(** ** A stand-in world

    The readers only run against an [Externals]; this one is small enough
    to evaluate.  A certificate is identified with its DER bytes, and DER
    is accepted when it opens with the SEQUENCE tag (byte 0x30, the
    character 0).  A PEM block is the text between a BEGIN CERTIFICATE
    line and the next END CERTIFICATE line, taken as it is.  Files, query
    results and base64 texts are looked up in the tables of a
    [scenario]. *)
Module Fixture.

Record scenario : Type := {
  (** path, contents *)
  files : list (string * bytes);
  (** document, expression, standard output, standard error, exit error *)
  queries : list (string * string * (bytes * bytes * option error));
  (** base64 text, decoded bytes *)
  encodings : list (bytes * bytes)
}.

Definition beginMarker : string := "-----BEGIN CERTIFICATE-----" +:+ nl.
Definition endMarker : string := "-----END CERTIFICATE-----" +:+ nl.

(** [s] without its prefix [p], when it has that prefix. *)
Fixpoint strip_prefix (p s : string) : option string :=
  match p, s with
  | EmptyString, _ => Some s
  | String a p, String b s => if Ascii.eqb a b then strip_prefix p s else None
  | String _ _, EmptyString => None
  end.

(** [s] cut at the first occurrence of [marker]: what is before it and
    what is after it. *)
Fixpoint cut (marker s : string) : option (string * string) :=
  match strip_prefix marker s with
  | Some after => Some (EmptyString, after)
  | None =>
    match s with
    | EmptyString => None
    | String c s =>
      match cut marker s with
      | Some (before, after) => Some (String c before, after)
      | None => None
      end
    end
  end.

Definition decode (data : bytes) : option Block * bytes :=
  match cut beginMarker data with
  | None => (None, data)
  | Some (_, opened) =>
    match cut endMarker opened with
    | None => (None, data)
    | Some (body, rest) =>
      (Some {| Type_ := "CERTIFICATE"; Headers := ∅; Bytes := body |}, rest)
    end
  end.

Definition parseCertificate (der : bytes) : error + bytes :=
  match der with
  | String "0" _ => inr der
  | _ => inl "x509: malformed certificate"%string
  end.

Fixpoint assoc {V : Type} (table : list (string * V)) (key : string) : option V :=
  match table with
  | [] => None
  | (k, v) :: table => if String.eqb k key then Some v else assoc table key
  end.

Fixpoint assoc2 {V : Type} (table : list (string * string * V)) (k1 k2 : string)
  : option V :=
  match table with
  | [] => None
  | (a, b, v) :: table =>
    if String.eqb a k1 && String.eqb b k2 then Some v else assoc2 table k1 k2
  end.

Definition readFile (sc : scenario) (path : string) : bytes * option error :=
  match assoc (files sc) path with
  | Some contents => (contents, None)
  | None => (EmptyString, Some ("open " +:+ path +:+ ": no such file or directory"))
  end.

(** A query that is not listed matches nothing and exits normally. *)
Definition query (sc : scenario) (file expr : string) : bytes * bytes * option error :=
  match assoc2 (queries sc) file expr with
  | Some r => r
  | None => (EmptyString, EmptyString, None)
  end.

Fixpoint drop_bytes (n : nat) (s : bytes) : bytes :=
  match n, s with
  | O, _ => s
  | S _, EmptyString => EmptyString
  | S n, String _ s => drop_bytes n s
  end.

(** A text that is not listed is rejected at its first byte, and [dst] is
    left as it was. *)
Definition decode64 (sc : scenario) (dst src : bytes) : bytes * nat * option error :=
  match assoc (encodings sc) src with
  | Some decoded =>
    (decoded +:+ drop_bytes (String.length decoded) dst, String.length decoded, None)
  | None => (dst, O, Some "illegal base64 data at input byte 0"%string)
  end.

(** Everything up to the last slash of [p], if it has one. *)
Fixpoint upto_last_slash (p : string) : option string :=
  match p with
  | EmptyString => None
  | String c p =>
    match upto_last_slash p with
    | Some d => Some (String c d)
    | None => if Ascii.eqb c "/" then Some EmptyString else None
    end
  end.

Definition dir (p : string) : string :=
  match upto_last_slash p with
  | None => "."
  | Some EmptyString => "/"
  | Some d => d
  end.

Definition join (a b : string) : string := a +:+ "/" +:+ b.

Definition world (sc : scenario) : Externals bytes := {|
  ioutil_ReadFile := readFile sc;
  yq_CombinedOutput file expr :=
    let '(out, err, status) := query sc file expr in (out +:+ err, status);
  yq_Output file expr :=
    let '(out, _, status) := query sc file expr in (out, status);
  base64_StdEncoding_Decode := decode64 sc;
  path_Join := join;
  filepath_Dir := dir;
  pem_Decode := decode;
  x509_ParseCertificate := parseCertificate
|}.

(** One certificate block around the given DER bytes. *)
Definition armor (der : bytes) : bytes := beginMarker +:+ der +:+ endMarker.

(** The block the decoder makes of [armor der]. *)
Definition block_of (der : bytes) : Block :=
  {| Type_ := "CERTIFICATE"; Headers := ∅; Bytes := der |}.

(** Whether [needle] occurs in [s]. *)
Definition occurs (needle s : string) : bool :=
  match cut needle s with
  | Some _ => true
  | None => false
  end.

(** Whether no byte of [s] is a dash. *)
Fixpoint dashless (s : string) : bool :=
  match s with
  | EmptyString => true
  | String c s => negb (Ascii.eqb c "-") && dashless s
  end.

(** The document the scenarios are about. *)
Definition config : string := "/etc/kube/config".

(** A world with no file and no query. *)
Definition nothing : scenario := {| files := []; queries := []; encodings := [] |}.

(** A kubeconfig in [/etc/kube] that refers to its certificates by file:
    the authority file holds two certificates for the one cluster [prod],
    the client file holds one certificate for the one user [admin]. *)
Definition kubeconfig : scenario := {|
  files := [
    ("/etc/kube/ca.crt", armor "0A" +:+ armor "0B");
    ("/etc/kube/client.crt", armor "0C")
  ];
  queries := [
    ("/etc/kube/config", "clusters.[*].cluster.certificate-authority",
     ("ca.crt" +:+ nl, "", None));
    ("/etc/kube/config", "clusters.[*].name", ("prod" +:+ nl, "", None));
    ("/etc/kube/config", "users.[*].user.client-certificate",
     ("client.crt" +:+ nl, "", None));
    ("/etc/kube/config", "users.[*].name", ("admin" +:+ nl, "", None))
  ];
  encodings := []
|}.

Definition clusterFilePair : YAMLCertRef :=
  {| CertMatchExpr := "clusters.[*].cluster.certificate-authority";
     IDMatchExpr := "clusters.[*].name";
     Format := YAMLCertFormatFile |}.

Definition userFilePair : YAMLCertRef :=
  {| CertMatchExpr := "users.[*].user.client-certificate";
     IDMatchExpr := "users.[*].name";
     Format := YAMLCertFormatFile |}.

(** A document whose one cluster entry has inline certificate data that
    is not base64, and no name. *)
Definition corruptInline : scenario := {|
  files := [];
  queries := [
    ("/etc/kube/config", "clusters.[*].cluster.certificate-authority-data",
     ("!!!!" +:+ nl, "", None))
  ];
  encodings := []
|}.

Definition clusterInlinePair : YAMLCertRef :=
  {| CertMatchExpr := "clusters.[*].cluster.certificate-authority-data";
     IDMatchExpr := "clusters.[*].name";
     Format := YAMLCertFormatBase64 |}.

(** A document on which the evaluator gives the file names but exits
    with an error on the identity expression; one referenced file holds a
    certificate, the other is empty. *)
Definition failingLabelQuery : scenario := {|
  files := [
    ("/etc/kube/ca.crt", armor "0A");
    ("/etc/kube/empty.crt", "")
  ];
  queries := [
    ("/etc/kube/config", "clusters.[*].cluster.certificate-authority",
     ("ca.crt" +:+ nl, "", None));
    ("/etc/kube/config", "clusters.[*].cluster.extra",
     ("empty.crt" +:+ nl, "", None));
    ("/etc/kube/config", "clusters.[*.name",
     ("", "Error: bad path expression", Some "exit status 1"))
  ];
  encodings := []
|}.

Definition brokenLabelPair : YAMLCertRef :=
  {| CertMatchExpr := "clusters.[*].cluster.certificate-authority";
     IDMatchExpr := "clusters.[*.name";
     Format := YAMLCertFormatFile |}.

Definition brokenLabelEmptyFilePair : YAMLCertRef :=
  {| CertMatchExpr := "clusters.[*].cluster.extra";
     IDMatchExpr := "clusters.[*.name";
     Format := YAMLCertFormatFile |}.

(** Two secrets, one with the key the reader wants and one without. *)
Definition tlsSecret : Secret :=
  {| Name := "web-tls"; Data := {[ "tls.crt"%string := armor "0A" ]} |}.

Definition opaqueSecret : Secret :=
  {| Name := "db-password"; Data := {[ "password"%string := "hunter2"%string ]} |}.

(** A kubeconfig with the certificate of its one cluster [prod] inline,
    in base64. *)
Definition inlineText : bytes :=
  "LS0tLS1CRUdJTiBDRVJUSUZJQ0FURS0tLS0tCjBBLS0tLS1FTkQgQ0VSVElGSUNBVEUtLS0tLQo="
  +:+ nl.

Definition inlineConfig : scenario := {|
  files := [];
  queries := [
    ("/etc/kube/config", "clusters.[*].cluster.certificate-authority-data",
     (inlineText, "", None));
    ("/etc/kube/config", "clusters.[*].name", ("prod" +:+ nl, "", None))
  ];
  encodings := [(inlineText, armor "0A")]
|}.

(** A document the evaluator cannot open. *)
Definition missingDocument : scenario := {|
  files := [];
  queries := [
    ("/etc/kube/config", "clusters.[*].cluster.certificate-authority",
     ("", "Error: open /etc/kube/config: no such file or directory",
      Some "exit status 1"))
  ];
  encodings := []
|}.

(** The pair of the cluster with a format that is neither constant. *)
Definition oddFormatPair : YAMLCertRef :=
  {| CertMatchExpr := "clusters.[*].cluster.certificate-authority";
     IDMatchExpr := "clusters.[*].name";
     Format := 7 |}.

(** A direct-file source, a structured-document source and two secret
    sources, one of them without its secret object. *)
Definition fileSource : certificateRef bytes :=
  {| path := "/etc/kube/ca.crt"; format := certificateFormatPEM;
     certificates := [bare_record "0Z"%string]; userIDs := [];
     yamlPaths := []; kubeSecret := None |}.

Definition documentSource : certificateRef bytes :=
  {| path := config; format := certificateFormatYAML;
     certificates := [bare_record "0Z"%string]; userIDs := [];
     yamlPaths := [userFilePair; clusterFilePair]; kubeSecret := None |}.

Definition secretSource : certificateRef bytes :=
  {| path := "default/web-tls"; format := certificateFormatKubeSecret;
     certificates := []; userIDs := []; yamlPaths := [];
     kubeSecret := Some tlsSecret |}.

Definition danglingSecretSource : certificateRef bytes :=
  {| path := "default/web-tls"; format := certificateFormatKubeSecret;
     certificates := []; userIDs := []; yamlPaths := []; kubeSecret := None |}.

End Fixture.


(** * Properties *)

Section Strings.

Example strings_Split_lines :
  strings_Split ("prod" +:+ nl +:+ nl +:+ "staging" +:+ nl) newline =
  ["prod"; ""; "staging"; ""]%string.
Proof. reflexivity. Qed.

Example strings_Split_empty : strings_Split "" newline = [""%string].
Proof. reflexivity. Qed.

Example strings_TrimRight_newlines :
  strings_TrimRight ("ca" +:+ nl +:+ ".crt" +:+ nl +:+ nl) nl = "ca" +:+ nl +:+ ".crt".
Proof. reflexivity. Qed.

Example collectUserIDs_lines :
  collectUserIDs ("prod" +:+ nl +:+ nl +:+ "staging" +:+ nl) = ["prod"; "staging"]%string.
Proof. reflexivity. Qed.

Example fmt_d_digits : fmt_d 0 = "0"%string /\ fmt_d 12 = "12"%string.
Proof. split; reflexivity. Qed.

Example DecodedLen_of_five : base64_StdEncoding_DecodedLen 5 = 3%nat.
Proof. reflexivity. Qed.

Lemma append_nil (b : string) : "" +:+ b = b.
Proof. reflexivity. Qed.

Lemma append_cons (x : ascii) (a b : string) :
  String x a +:+ b = String x (a +:+ b).
Proof. reflexivity. Qed.

Lemma length_append (a b : string) :
  String.length (a +:+ b) = (String.length a + String.length b)%nat.
Proof.
  induction a as [|x a IH]; [reflexivity|].
  rewrite append_cons. simpl. by rewrite IH.
Qed.

(** One more newline at the end changes nothing to what is left after
    trimming. *)
Lemma strings_TrimRight_newline (s : string) :
  strings_TrimRight (s +:+ nl) nl = strings_TrimRight s nl.
Proof.
  induction s as [|c s IH]; [reflexivity|].
  rewrite append_cons. cbn [strings_TrimRight]. by rewrite IH.
Qed.

(** What is left after trimming does not end in a newline. *)
Lemma strings_TrimRight_no_newline (s t : string) :
  strings_TrimRight s nl <> t +:+ nl.
Proof.
  revert t. induction s as [|c s IH]; intros t.
  - by destruct t.
  - cbn [strings_TrimRight].
    destruct (strings_TrimRight s nl) as [|d r] eqn:Hr.
    + destruct (in_cutset c nl) eqn:Hc; [by destruct t|].
      destruct t as [|x [|y t]]; [|discriminate..].
      rewrite append_nil. intros He. inversion He; subst. by vm_compute in Hc.
    + destruct t as [|x t]; [discriminate|].
      rewrite append_cons. intros He. inversion He; subst.
      by apply (IH t).
Qed.

End Strings.

Section PEMDecoder.

Context {Certificate : Type} {ext : Externals Certificate}.

Implicit Types (data rest : bytes) (output certs : list Certificate).

Lemma parsePEM_loop_step fuel data output :
  parsePEM_loop (S fuel) data output =
  match pem_Decode data with
  | (None, _) => Returns (output, None)
  | (Some block, rest) =>
    match x509_ParseCertificate (Bytes block) with
    | inl err => Returns ([], Some (malformedError err))
    | inr cert => parsePEM_loop fuel rest (output ++ [cert])
    end
  end.
Proof. simpl. destruct (pem_Decode data) as [[block|] rest]; reflexivity. Qed.

(** Fuel that was enough stays enough. *)
Lemma parsePEM_loop_more_fuel fuel fuel' data output r :
  parsePEM_loop fuel data output = Returns r ->
  (fuel <= fuel')%nat ->
  parsePEM_loop fuel' data output = Returns r.
Proof.
  revert fuel' data output.
  induction fuel as [|fuel IH]; intros fuel' data output Hr Hle; [discriminate|].
  destruct fuel' as [|fuel']; [lia|].
  rewrite parsePEM_loop_step in *.
  destruct (pem_Decode data) as [[block|] rest]; [|exact Hr].
  destruct (x509_ParseCertificate (Bytes block)); [exact Hr|].
  apply IH; [exact Hr | lia].
Qed.

(** Under the decoder's contract the loop ends within the fuel of
    [parsePEM], and it returns. *)
Lemma parsePEM_loop_returns :
  pem_Decode_consumes ->
  forall fuel data output,
    (String.length data < fuel)%nat ->
    exists r, parsePEM_loop fuel data output = Returns r.
Proof.
  intros Hc fuel.
  induction fuel as [|fuel IH]; intros data output Hlt; [lia|].
  rewrite parsePEM_loop_step.
  destruct (pem_Decode data) as [[block|] rest] eqn:Hd; [|eauto].
  destruct (x509_ParseCertificate (Bytes block)); [eauto|].
  apply IH. apply Hc in Hd. lia.
Qed.

Lemma parsePEM_returns :
  pem_Decode_consumes -> forall data, exists r, parsePEM data = Returns r.
Proof. intros Hc data. apply parsePEM_loop_returns; [exact Hc | lia]. Qed.

(** What the loop returns is either a failure with nothing else, or the
    certificates it was entered with followed by more. *)
Lemma parsePEM_loop_shape fuel data output certs err :
  parsePEM_loop fuel data output = Returns (certs, err) ->
  (err = None /\ exists more, certs = output ++ more) \/
  (certs = [] /\ exists e, err = Some (malformedError e)).
Proof.
  revert data output.
  induction fuel as [|fuel IH]; intros data output Hr; [discriminate|].
  rewrite parsePEM_loop_step in Hr.
  destruct (pem_Decode data) as [[block|] rest].
  - destruct (x509_ParseCertificate (Bytes block)) as [e|c].
    + inversion Hr; subst. right. eauto.
    + apply IH in Hr as [[-> [more ->]]|Hbad]; [|right; exact Hbad].
      left. split; [reflexivity|]. exists (c :: more). by rewrite <- app_assoc.
  - inversion Hr; subst. left. split; [reflexivity|]. exists []. by rewrite app_nil_r.
Qed.

Lemma parsePEM_error_no_certs data certs e :
  parsePEM data = Returns (certs, Some e) -> certs = [].
Proof.
  intros Hr. apply parsePEM_loop_shape in Hr as [[Hn _]|[Hc _]]; [discriminate | exact Hc].
Qed.

(** A block that does not parse stops the loop with the error alone,
    whatever was collected before it. *)
Lemma parsePEM_loop_malformed :
  pem_Decode_consumes ->
  forall data block reason,
    located data block ->
    x509_ParseCertificate (Bytes block) = inl reason ->
    forall fuel output,
      (String.length data < fuel)%nat ->
      exists bad err,
        located data bad /\
        x509_ParseCertificate (Bytes bad) = inl err /\
        parsePEM_loop fuel data output = Returns ([], Some (malformedError err)).
Proof.
  intros Hc data block reason Hloc Hbad.
  induction Hloc as [data block rest Hd | data skipped rest block Hd Hloc IH];
    intros fuel output Hlt; (destruct fuel as [|fuel]; [lia|]);
    rewrite parsePEM_loop_step, Hd.
  - rewrite Hbad. exists block, reason. eauto using located_first.
  - destruct (x509_ParseCertificate (Bytes skipped)) as [e|c] eqn:Hp.
    + exists skipped, e. eauto using located_first.
    + pose proof (Hc _ _ _ Hd) as Hshort.
      destruct (IH Hbad fuel (output ++ [c])) as (bad & e & Hl & Hp' & Hr); [lia|].
      exists bad, e. eauto using located_next.
Qed.

(** C2. For every input buffer of the PEM decoder: if one of the PEM
    blocks located in it has a DER payload that [x509.ParseCertificate]
    rejects, [parsePEM] returns an error and an empty result, never the
    certificates decoded before that block; the error is the text
    [tried to parse malformed x509 data, ] followed by the parse error of
    a located block.  (The decoder is assumed to return, with a block, a
    remainder shorter than its input.) *)
Theorem parsePEM_malformed_block_is_fatal :
  pem_Decode_consumes ->
  forall data block reason,
    located data block ->
    x509_ParseCertificate (Bytes block) = inl reason ->
    exists bad err,
      located data bad /\
      x509_ParseCertificate (Bytes bad) = inl err /\
      parsePEM data =
      Returns ([], Some ("tried to parse malformed x509 data, " +:+ err)).
Proof.
  intros Hc data block reason Hloc Hbad.
  apply (parsePEM_loop_malformed Hc data block reason Hloc Hbad); lia.
Qed.

(** A buffer in which the decoder finds nothing gives no certificate and
    no error. *)
Lemma parsePEM_loop_no_block fuel data output :
  holds_no_block data ->
  parsePEM_loop (S fuel) data output = Returns (output, None).
Proof.
  unfold holds_no_block. intros Hn. rewrite parsePEM_loop_step.
  destruct (pem_Decode data) as [[block|] rest]; [discriminate | reflexivity].
Qed.

(** Under the contract, there is no block in the empty buffer. *)
Lemma empty_holds_no_block : pem_Decode_consumes -> holds_no_block "".
Proof.
  intros Hc. unfold holds_no_block.
  destruct (pem_Decode "") as [[block|] rest] eqn:Hd; [|reflexivity].
  apply Hc in Hd. simpl in Hd. lia.
Qed.

(** An encoded block has at least one byte, as soon as some buffer holds
    no block. *)
Lemma encodes_nonempty enc block trailing :
  encodes enc block -> holds_no_block trailing -> enc <> "".
Proof.
  intros He Hn ->. unfold holds_no_block in Hn.
  specialize (He trailing). rewrite append_nil in He. by rewrite He in Hn.
Qed.

Lemma layout_length segments blocks trailing :
  Forall2 well_laid segments blocks ->
  holds_no_block trailing ->
  (length segments <= String.length (layout segments trailing))%nat.
Proof.
  intros Hs Hn. induction Hs as [|[junk enc] block segments blocks [_ He] _ IH];
    simpl; [lia|].
  rewrite !length_append.
  pose proof (encodes_nonempty _ _ _ He Hn) as Hne.
  destruct enc; [done | simpl; lia].
Qed.

(** The loop on a laid-out buffer sees the blocks and nothing else. *)
Lemma parsePEM_loop_layout segments blocks trailing :
  Forall2 well_laid segments blocks ->
  holds_no_block trailing ->
  forall fuel output,
    (length segments < fuel)%nat ->
    parsePEM_loop fuel (layout segments trailing) output =
    Returns (parse_blocks blocks output).
Proof.
  intros Hs Hn.
  induction Hs as [|[junk enc] block segments blocks [Hj He] _ IH];
    intros fuel output Hlt; (destruct fuel as [|fuel]; [simpl in Hlt; lia|]).
  - by apply parsePEM_loop_no_block.
  - rewrite parsePEM_loop_step. simpl in *.
    specialize (Hj (enc +:+ layout segments trailing)).
    rewrite He in Hj. rewrite Hj.
    destruct (x509_ParseCertificate (Bytes block)); [reflexivity|].
    apply IH. lia.
Qed.

Lemma parsePEM_layout segments blocks trailing :
  Forall2 well_laid segments blocks ->
  holds_no_block trailing ->
  parsePEM (layout segments trailing) = Returns (parse_blocks blocks []).
Proof.
  intros Hs Hn. apply parsePEM_loop_layout; [done..|].
  pose proof (layout_length _ _ _ Hs Hn). lia.
Qed.

(** Blocks that all parse give their certificates, in order. *)
Lemma parse_blocks_all_parse blocks certs output :
  Forall2 (fun block cert => x509_ParseCertificate (Bytes block) = inr cert)
    blocks certs ->
  parse_blocks blocks output = (output ++ certs, None).
Proof.
  intros Hp. revert output.
  induction Hp as [|block cert blocks certs Hb _ IH]; intros output; simpl.
  - by rewrite app_nil_r.
  - rewrite Hb, IH. by rewrite <- app_assoc.
Qed.

(** Nothing is passed over in front of a block in the empty string. *)
Lemma passed_over_empty : passed_over "".
Proof.
  intros rest. rewrite append_nil. unfold holds_no_block.
  by destruct (pem_Decode rest) as [[block|] rest'].
Qed.

Lemma layout_bare encs :
  layout (map (fun enc => (EmptyString, enc)) encs) "" = concat_bytes encs.
Proof.
  induction encs as [|enc encs IH]; simpl; [reflexivity|].
  by rewrite append_nil, IH.
Qed.

Lemma well_laid_bare encs blocks :
  Forall2 encodes encs blocks ->
  Forall2 well_laid (map (fun enc => (EmptyString, enc)) encs) blocks.
Proof.
  induction 1 as [|enc block encs blocks He _ IH]; simpl; constructor; [|done].
  split; [apply passed_over_empty | exact He].
Qed.

Lemma parsePEM_concat encs blocks :
  pem_Decode_consumes ->
  Forall2 encodes encs blocks ->
  parsePEM (concat_bytes encs) = Returns (parse_blocks blocks []).
Proof.
  intros Hc He. rewrite <- layout_bare.
  apply parsePEM_layout; [by apply well_laid_bare | by apply empty_holds_no_block].
Qed.

(** C3. For every buffer that consists of K well-formed PEM blocks one
    after the other (K >= 0), each holding DER that parses, [parsePEM]
    returns no error and exactly the K certificates of the blocks, in the
    order of the blocks in the buffer; and a buffer in which there is no
    PEM block gives the empty sequence and no error.  (The decoder is
    assumed to return, with a block, a remainder shorter than its
    input.) *)
Theorem parsePEM_concatenated_blocks :
  pem_Decode_consumes ->
  (forall (encs : list bytes) (blocks : list Block) certs,
     Forall2 encodes encs blocks ->
     Forall2 (fun block cert => x509_ParseCertificate (Bytes block) = inr cert)
       blocks certs ->
     parsePEM (concat_bytes encs) = Returns (certs, None) /\
     length certs = length encs) /\
  (forall data, holds_no_block data -> parsePEM data = Returns ([], None)).
Proof.
  intros Hc. split.
  - intros encs blocks certs He Hp. split.
    + rewrite (parsePEM_concat encs blocks Hc He).
      by rewrite (parse_blocks_all_parse blocks certs []).
    + apply Forall2_length in He, Hp. congruence.
  - intros data Hn. by apply parsePEM_loop_no_block.
Qed.

(** Whatever the loop returns comes from the blocks located in the
    buffer: an error is the malformed-data error of a located block, and
    the certificates added to the ones it was entered with are the parsed
    payloads of located blocks. *)
Lemma parsePEM_loop_from_blocks fuel data output certs err :
  parsePEM_loop fuel data output = Returns (certs, err) ->
  match err with
  | Some err =>
    exists block reason,
      located data block /\
      x509_ParseCertificate (Bytes block) = inl reason /\
      err = malformedError reason
  | None =>
    exists more,
      certs = output ++ more /\
      Forall (fun c => exists block,
                  located data block /\
                  x509_ParseCertificate (Bytes block) = inr c) more
  end.
Proof.
  revert data output.
  induction fuel as [|fuel IH]; intros data output Hr; [discriminate|].
  rewrite parsePEM_loop_step in Hr.
  destruct (pem_Decode data) as [[block|] rest] eqn:Hd.
  - destruct (x509_ParseCertificate (Bytes block)) as [reason|c] eqn:Hp.
    + inversion Hr; subst. exists block, reason. eauto using located_first.
    + apply IH in Hr. destruct err as [err|].
      * destruct Hr as (bad & reason & Hl & Hb & ->).
        exists bad, reason. eauto using located_next.
      * destruct Hr as (more & -> & Hm). exists (c :: more). split.
        { by rewrite <- app_assoc. }
        constructor; [eauto using located_first|].
        eapply Forall_impl; [exact Hm|].
        intros c' (b & Hl & Hb). eauto using located_next.
  - inversion Hr; subst. exists []. split; [by rewrite app_nil_r | constructor].
Qed.

(** C10. For every input buffer, what [parsePEM] returns comes from the
    PEM blocks located in it and from nothing else: an error is the
    malformed-data error of a located block, and every certificate
    returned is the parsed payload of a located block.  And for every
    buffer laid out as bytes the decoder passes over, a well-formed PEM
    block, more bytes it passes over, a block, and so on, and trailing
    bytes in which there is no block (NUL padding, for one): [parsePEM]
    returns what it returns on the blocks alone, one after the other;
    when the DER of every block parses, that is the certificates of the
    blocks in order and no error.  (For the laid-out buffers the decoder
    is assumed to return, with a block, a remainder shorter than its
    input.) *)
Theorem parsePEM_ignores_bytes_outside_blocks :
  (forall data certs err,
      parsePEM data = Returns (certs, Some err) ->
      exists block reason,
        located data block /\
        x509_ParseCertificate (Bytes block) = inl reason /\
        err = malformedError reason) /\
  (forall data certs,
      parsePEM data = Returns (certs, None) ->
      Forall (fun c => exists block,
                  located data block /\
                  x509_ParseCertificate (Bytes block) = inr c) certs) /\
  (pem_Decode_consumes ->
   forall (segments : list (bytes * bytes)) (blocks : list Block) (trailing : bytes),
     Forall2 well_laid segments blocks ->
     holds_no_block trailing ->
     parsePEM (layout segments trailing) =
     parsePEM (concat_bytes (map snd segments)) /\
     (forall certs,
         Forall2 (fun block cert => x509_ParseCertificate (Bytes block) = inr cert)
           blocks certs ->
         parsePEM (layout segments trailing) = Returns (certs, None))).
Proof.
  split; [|split].
  - intros data certs err Hr.
    exact (parsePEM_loop_from_blocks _ _ _ _ _ Hr).
  - intros data certs Hr.
    destruct (parsePEM_loop_from_blocks _ _ _ _ _ Hr) as (more & -> & Hm).
    exact Hm.
  - intros Hc segments blocks trailing Hs Hn.
    rewrite (parsePEM_layout segments blocks trailing Hs Hn). split.
    + symmetry. apply parsePEM_concat; [exact Hc|].
      clear Hn. induction Hs as [|[junk enc] block segments blocks [_ He] _ IH];
        simpl; constructor; done.
    + intros certs Hp. by rewrite (parse_blocks_all_parse blocks certs []).
Qed.

End PEMDecoder.

Section StructuredDocumentReader.

Context {Certificate : Type} {ext : Externals Certificate}.

Implicit Types (filePath : string) (exprs : YAMLCertRef)
  (output records : list (parsedCertificate Certificate)).

Lemma collect_fold (ids acc : list string) :
  fold_left
    (fun userIDs userID =>
       if String.eqb userID "" then userIDs else userIDs ++ [userID]) ids acc =
  acc ++ filter (fun id : string => id <> ""%string) ids.
Proof.
  revert acc. induction ids as [|id ids IH]; intros acc; simpl.
  - by rewrite app_nil_r.
  - rewrite IH. destruct (String.eqb_spec id "") as [->|Hne].
    + by rewrite filter_cons_False by (intros Hn; by apply Hn).
    + rewrite filter_cons_True by done. by rewrite <- app_assoc.
Qed.

(** The labels are the lines of the identity output that are not empty. *)
Lemma collectUserIDs_filter (rawUserIDs : bytes) :
  collectUserIDs rawUserIDs =
  filter (fun id : string => id <> ""%string) (strings_Split rawUserIDs newline).
Proof. unfold collectUserIDs. by rewrite collect_fold. Qed.

(** With a label for every certificate the inner loop does not panic: it
    appends the certificates, each with the label at its position. *)
Lemma appendRecords_zip (certs : list Certificate) (index : nat)
    (ids : list string) exprs output :
  (index + length certs <= length ids)%nat ->
  appendRecords certs index ids exprs output =
  Returns (output ++ zip_with (labelled exprs) certs (drop index ids)).
Proof.
  revert index output.
  induction certs as [|c certs IH]; intros index output Hlen; simpl.
  - by rewrite app_nil_r.
  - simpl in Hlen.
    destruct (ids !! index) as [id|] eqn:Hid.
    + rewrite IH by lia. rewrite (drop_S _ _ _ Hid). simpl.
      by rewrite <- app_assoc.
    + apply lookup_ge_None in Hid. lia.
Qed.

(** What one pair does to the records collected so far: under the
    decoder's contract it returns, and it either appends records of its
    own, the same whatever was collected, or gives an error and nothing
    else. *)
Lemma correlate_appends_or_fails :
  pem_Decode_consumes ->
  forall filePath exprs (decodedCerts : bytes),
    (exists records, forall output,
        correlate filePath exprs decodedCerts output = Returns (output ++ records, None)) \/
    (exists e, forall output,
        correlate filePath exprs decodedCerts output = Returns ([], Some e)).
Proof.
  intros Hc filePath exprs decodedCerts. unfold correlate.
  destruct (parsePEM_returns Hc decodedCerts) as [[certs [e|]] ->]; simpl.
  - right. eauto.
  - destruct (yq_Output filePath (IDMatchExpr exprs)) as [rawUserIDs status].
    destruct (length (collectUserIDs rawUserIDs) =? length certs)%nat eqn:Hn; simpl.
    + left. exists (zip_with (labelled exprs) certs (drop 0 (collectUserIDs rawUserIDs))).
      intros output. apply Nat.eqb_eq in Hn.
      rewrite appendRecords_zip by (simpl; lia). reflexivity.
    + right. eauto.
Qed.

Lemma yamlPair_appends_or_fails :
  pem_Decode_consumes ->
  forall filePath exprs,
    (exists records, forall output,
        yamlPair filePath exprs output = Returns (output ++ records, None)) \/
    (exists e, forall output, yamlPair filePath exprs output = Returns ([], Some e)).
Proof.
  intros Hc filePath exprs. unfold yamlPair.
  destruct (yq_CombinedOutput filePath (CertMatchExpr exprs)) as [rawCerts [e|]].
  { right. eauto. }
  destruct (String.length rawCerts =? 0)%nat.
  { left. exists []. intros output. by rewrite app_nil_r. }
  destruct (decodeRawCerts filePath exprs rawCerts) as [decodedCerts [e|]].
  { right. eauto. }
  apply (correlate_appends_or_fails Hc).
Qed.

Lemma readAndParseYAMLFile_loop_appends_or_fails :
  pem_Decode_consumes ->
  forall filePath (paths : list YAMLCertRef),
    (exists records, forall output,
        readAndParseYAMLFile_loop filePath paths output =
        Returns (output ++ records, None)) \/
    (exists e, forall output,
        readAndParseYAMLFile_loop filePath paths output = Returns ([], Some e)).
Proof.
  intros Hc filePath paths.
  induction paths as [|exprs paths IH]; simpl.
  { left. exists []. intros output. by rewrite app_nil_r. }
  destruct (yamlPair_appends_or_fails Hc filePath exprs) as [[r1 H1]|[e H1]].
  - destruct IH as [[r2 H2]|[e H2]].
    + left. exists (r1 ++ r2). intros output.
      rewrite H1. simpl. rewrite H2. by rewrite <- app_assoc.
    + right. exists e. intros output. rewrite H1. simpl. by rewrite H2.
  - right. exists e. intros output. by rewrite H1.
Qed.

(** The loop over a list of pairs in two stretches. *)
Lemma readAndParseYAMLFile_loop_app filePath (before after : list YAMLCertRef) output :
  readAndParseYAMLFile_loop filePath (before ++ after) output =
  match readAndParseYAMLFile_loop filePath before output with
  | Returns (output', None) => readAndParseYAMLFile_loop filePath after output'
  | Returns (_, Some e) => Returns ([], Some e)
  | Panics => Panics
  | OutOfFuel => OutOfFuel
  end.
Proof.
  revert output. induction before as [|exprs before IH]; intros output; simpl.
  - reflexivity.
  - destruct (yamlPair filePath exprs output) as [[output' [e|]]| |]; simpl;
      [reflexivity | apply IH | reflexivity | reflexivity].
Qed.

Lemma length_zero_iff_empty (s : string) :
  (String.length s =? 0)%nat = true <-> s = ""%string.
Proof. destruct s; simpl; split; intros; done. Qed.

(** Takes the branch of [yamlPair] for matched text that is known not to
    be empty. *)
Ltac matched_text_not_empty :=
  let H0 := fresh "H0" in
  destruct (String.length _ =? 0)%nat eqn:H0;
  [apply length_zero_iff_empty in H0; done|].

(** A pair in the middle of the list is reached with what the pairs
    before it collected. *)
Lemma readAndParseYAMLFile_at_pair filePath (before after : list YAMLCertRef)
    exprs collected :
  readAndParseYAMLFile filePath before = Returns (collected, None) ->
  readAndParseYAMLFile filePath (before ++ exprs :: after) =
  readAndParseYAMLFile_loop filePath (exprs :: after) collected.
Proof.
  unfold readAndParseYAMLFile. intros Hb.
  by rewrite readAndParseYAMLFile_loop_app, Hb.
Qed.

(** C1. For every Structured-Document read and every pair of it that
    the read gets to with certificate material: when the number of lines
    of the identity output that are not empty differs from the number of
    certificates decoded for the certificate expression, the whole read
    fails; the error names the document path, the number of labels, the
    number of certificates and the identity expression, and no record
    is returned. *)
Theorem readAndParseYAMLFile_label_count_mismatch :
  forall filePath (before after : list YAMLCertRef) exprs collected
         (rawCerts decodedCerts rawUserIDs : bytes) (certs : list Certificate)
         (status : option error),
    readAndParseYAMLFile filePath before = Returns (collected, None) ->
    yq_CombinedOutput filePath (CertMatchExpr exprs) = (rawCerts, None) ->
    rawCerts <> ""%string ->
    decodeRawCerts filePath exprs rawCerts = (decodedCerts, None) ->
    parsePEM decodedCerts = Returns (certs, None) ->
    yq_Output filePath (IDMatchExpr exprs) = (rawUserIDs, status) ->
    let labels :=
      filter (fun id : string => id <> ""%string) (strings_Split rawUserIDs newline) in
    length labels <> length certs ->
    readAndParseYAMLFile filePath (before ++ exprs :: after) =
    Returns ([], Some ("failed to parse some labels in " +:+ filePath
                       +:+ " (got " +:+ fmt_d (length labels)
                       +:+ " IDs but " +:+ fmt_d (length certs)
                       +:+ " certs for " +:+ dquote +:+ IDMatchExpr exprs
                       +:+ dquote +:+ ")")).
Proof.
  intros filePath before after exprs collected rawCerts decodedCerts rawUserIDs
    certs status Hb Hq Hne Hd Hp Hi labels Hlen.
  rewrite (readAndParseYAMLFile_at_pair _ _ _ _ _ Hb). simpl.
  unfold yamlPair. rewrite Hq.
  matched_text_not_empty.
  rewrite Hd. unfold correlate. rewrite Hp. simpl. rewrite Hi.
  rewrite collectUserIDs_filter. fold labels.
  apply Nat.eqb_neq in Hlen. rewrite Hlen. reflexivity.
Qed.

(** When the counts agree, the pair gives one record per certificate,
    labelled by position and tagged with the certificate expression. *)
Lemma yamlPair_labels_by_position filePath exprs output
    (rawCerts decodedCerts rawUserIDs : bytes) (certs : list Certificate)
    (status : option error) :
  yq_CombinedOutput filePath (CertMatchExpr exprs) = (rawCerts, None) ->
  rawCerts <> ""%string ->
  decodeRawCerts filePath exprs rawCerts = (decodedCerts, None) ->
  parsePEM decodedCerts = Returns (certs, None) ->
  yq_Output filePath (IDMatchExpr exprs) = (rawUserIDs, status) ->
  length (collectUserIDs rawUserIDs) = length certs ->
  yamlPair filePath exprs output =
  Returns (output ++ zip_with (labelled exprs) certs (collectUserIDs rawUserIDs), None).
Proof.
  intros Hq Hne Hd Hp Hi Hlen. unfold yamlPair. rewrite Hq.
  matched_text_not_empty.
  rewrite Hd. unfold correlate. rewrite Hp. simpl. rewrite Hi.
  apply Nat.eqb_eq in Hlen. rewrite Hlen. simpl.
  rewrite appendRecords_zip by (apply Nat.eqb_eq in Hlen; lia). reflexivity.
Qed.

(** C5. For every pair with the file-reference format whose
    certificate expression evaluates to matched text that is not empty:
    the file that is read is the one at the matched text joined to the
    directory of the document, with the newlines at the end trimmed off;
    when that file cannot be read the read fails with the error of the
    file read, and when it can be read its contents are what goes to the
    PEM decoder and on to the correlation of the pair. *)
Theorem readAndParseYAMLFile_file_reference :
  forall filePath exprs (rawCerts : bytes),
    Format exprs = YAMLCertFormatFile ->
    yq_CombinedOutput filePath (CertMatchExpr exprs) = (rawCerts, None) ->
    rawCerts <> ""%string ->
    let certPath :=
      strings_TrimRight (path_Join (filepath_Dir filePath) rawCerts) nl in
    forall (more : list YAMLCertRef) output,
      match ioutil_ReadFile certPath with
      | (_, Some err) =>
        readAndParseYAMLFile_loop filePath (exprs :: more) output =
        Returns ([], Some err)
      | (contents, None) =>
        readAndParseYAMLFile_loop filePath (exprs :: more) output =
        (call (output, err) <- correlate filePath exprs contents output;
         match err with
         | Some err => Returns ([], Some err)
         | None => readAndParseYAMLFile_loop filePath more output
         end) /\
        (forall certs err,
            parsePEM contents = Returns (certs, Some err) ->
            readAndParseYAMLFile_loop filePath (exprs :: more) output =
            Returns ([], Some err))
      end.
Proof.
  intros filePath exprs rawCerts Hf Hq Hne certPath more output.
  simpl. unfold yamlPair. rewrite Hq.
  matched_text_not_empty.
  unfold decodeRawCerts. rewrite Hf. simpl. fold certPath.
  destruct (ioutil_ReadFile certPath) as [contents [err|]]; [reflexivity|].
  split; [reflexivity|].
  intros certs err Hp. unfold correlate. rewrite Hp. reflexivity.
Qed.

(** With the inline format the bytes that go to the PEM decoder are the
    buffer [Decode] wrote into, and no error comes out of the decoding
    step, whatever [Decode] returned. *)
Lemma decodeRawCerts_base64 filePath exprs (rawCerts : bytes) :
  Format exprs = YAMLCertFormatBase64 ->
  decodeRawCerts filePath exprs rawCerts =
  ((base64_StdEncoding_Decode
      (make_bytes (base64_StdEncoding_DecodedLen (String.length rawCerts)))
      rawCerts).1.1, None).
Proof.
  intros Hf. unfold decodeRawCerts. rewrite Hf. simpl.
  by destruct (base64_StdEncoding_Decode _ rawCerts) as [[dst n] err].
Qed.

(** A failure of the evaluator on the certificate expression ends the
    read with the exit error and the combined output of the evaluator. *)
Lemma readAndParseYAMLFile_certificate_query_failure filePath exprs
    (more : list YAMLCertRef) output (combined : bytes) (err : error) :
  yq_CombinedOutput filePath (CertMatchExpr exprs) = (combined, Some err) ->
  readAndParseYAMLFile_loop filePath (exprs :: more) output =
  Returns ([], Some (err +:+ " | stderr: " +:+ combined)).
Proof. intros Hq. simpl. unfold yamlPair. by rewrite Hq. Qed.

(** C4. For every Structured-Document read over an ordered list of
    pairs.  The read returns, and when it returns an error it returns no
    record.  Records accumulate in the order of the pairs: the records
    of a first stretch of pairs come first and those of the pairs after
    it follow, and a pair that succeeds adds, after what the pairs
    before it collected, one record per certificate.  A failure while
    processing a pair aborts the read: when the pairs before it gave
    records and the pair fails, be it that the evaluator fails on its
    certificate expression, that the referenced file cannot be read,
    that the PEM decoder fails or that the counts of labels and
    certificates differ, the read returns that error alone, none of the
    records collected before, and the pairs after it play no part; the
    same holds of a failure anywhere in a stretch.  (The decoder is
    assumed to return, with a block, a remainder shorter than its
    input.) *)
Theorem readAndParseYAMLFile_accumulates_or_aborts :
  pem_Decode_consumes ->
  forall filePath (before after : list YAMLCertRef),
    (exists records err,
        readAndParseYAMLFile filePath (before ++ after) = Returns (records, err) /\
        (err <> None -> records = [])) /\
    (forall r1 r2,
        readAndParseYAMLFile filePath before = Returns (r1, None) ->
        readAndParseYAMLFile filePath after = Returns (r2, None) ->
        readAndParseYAMLFile filePath (before ++ after) = Returns (r1 ++ r2, None)) /\
    (forall r1 r2 e,
        readAndParseYAMLFile filePath before = Returns (r1, None) ->
        readAndParseYAMLFile filePath after = Returns (r2, Some e) ->
        readAndParseYAMLFile filePath (before ++ after) = Returns ([], Some e)) /\
    (forall r1 e,
        readAndParseYAMLFile filePath before = Returns (r1, Some e) ->
        readAndParseYAMLFile filePath (before ++ after) = Returns ([], Some e)) /\
    (forall exprs collected (combined : bytes) (err : error),
        readAndParseYAMLFile filePath before = Returns (collected, None) ->
        yq_CombinedOutput filePath (CertMatchExpr exprs) = (combined, Some err) ->
        readAndParseYAMLFile filePath (before ++ exprs :: after) =
        Returns ([], Some (err +:+ " | stderr: " +:+ combined))) /\
    (forall exprs collected (rawCerts contents : bytes) (err : error),
        readAndParseYAMLFile filePath before = Returns (collected, None) ->
        yq_CombinedOutput filePath (CertMatchExpr exprs) = (rawCerts, None) ->
        rawCerts <> ""%string ->
        Format exprs = YAMLCertFormatFile ->
        ioutil_ReadFile
          (strings_TrimRight (path_Join (filepath_Dir filePath) rawCerts) nl) =
        (contents, Some err) ->
        readAndParseYAMLFile filePath (before ++ exprs :: after) =
        Returns ([], Some err)) /\
    (forall exprs collected (rawCerts decodedCerts : bytes)
            (certs : list Certificate) (err : error),
        readAndParseYAMLFile filePath before = Returns (collected, None) ->
        yq_CombinedOutput filePath (CertMatchExpr exprs) = (rawCerts, None) ->
        rawCerts <> ""%string ->
        decodeRawCerts filePath exprs rawCerts = (decodedCerts, None) ->
        parsePEM decodedCerts = Returns (certs, Some err) ->
        readAndParseYAMLFile filePath (before ++ exprs :: after) =
        Returns ([], Some err)) /\
    (forall exprs collected (rawCerts decodedCerts rawUserIDs : bytes)
            (certs : list Certificate) (status : option error),
        readAndParseYAMLFile filePath before = Returns (collected, None) ->
        yq_CombinedOutput filePath (CertMatchExpr exprs) = (rawCerts, None) ->
        rawCerts <> ""%string ->
        decodeRawCerts filePath exprs rawCerts = (decodedCerts, None) ->
        parsePEM decodedCerts = Returns (certs, None) ->
        yq_Output filePath (IDMatchExpr exprs) = (rawUserIDs, status) ->
        let labels :=
          filter (fun id : string => id <> ""%string)
            (strings_Split rawUserIDs newline) in
        (length labels <> length certs ->
         readAndParseYAMLFile filePath (before ++ exprs :: after) =
         Returns ([], Some ("failed to parse some labels in " +:+ filePath
                            +:+ " (got " +:+ fmt_d (length labels)
                            +:+ " IDs but " +:+ fmt_d (length certs)
                            +:+ " certs for " +:+ dquote +:+ IDMatchExpr exprs
                            +:+ dquote +:+ ")"))) /\
        (length labels = length certs ->
         readAndParseYAMLFile filePath (before ++ [exprs]) =
         Returns (collected ++
                  zip_with (fun c id => {| cert := c; userID := id;
                                           yqMatchExpr := CertMatchExpr exprs |})
                    certs labels, None))).
Proof.
  intros Hc filePath before after.
  split; [|split; [|split; [|split; [|split; [|split; [|split]]]]]].
  - unfold readAndParseYAMLFile.
    destruct (readAndParseYAMLFile_loop_appends_or_fails Hc filePath (before ++ after))
      as [[r H]|[e H]]; rewrite H; eauto.
    exists ([] ++ r), None. split; [reflexivity | done].
  - unfold readAndParseYAMLFile.
    intros r1 r2 H1 H2. rewrite readAndParseYAMLFile_loop_app, H1.
    destruct (readAndParseYAMLFile_loop_appends_or_fails Hc filePath after)
      as [[r H]|[e H]]; rewrite H in *; [|discriminate].
    by inversion H2.
  - unfold readAndParseYAMLFile.
    intros r1 r2 e H1 H2. rewrite readAndParseYAMLFile_loop_app, H1.
    destruct (readAndParseYAMLFile_loop_appends_or_fails Hc filePath after)
      as [[r H]|[e' H]]; rewrite H in *; [discriminate|].
    by inversion H2.
  - unfold readAndParseYAMLFile.
    intros r1 e H1. by rewrite readAndParseYAMLFile_loop_app, H1.
  - intros exprs collected combined err Hb Hq.
    rewrite (readAndParseYAMLFile_at_pair _ _ _ _ _ Hb).
    by apply readAndParseYAMLFile_certificate_query_failure.
  - intros exprs collected rawCerts contents err Hb Hq Hne Hf Hr.
    rewrite (readAndParseYAMLFile_at_pair _ _ _ _ _ Hb). simpl.
    unfold yamlPair. rewrite Hq. matched_text_not_empty.
    unfold decodeRawCerts. rewrite Hf. simpl. by rewrite Hr.
  - intros exprs collected rawCerts decodedCerts certs err Hb Hq Hne Hd Hp.
    rewrite (readAndParseYAMLFile_at_pair _ _ _ _ _ Hb). simpl.
    unfold yamlPair. rewrite Hq. matched_text_not_empty.
    rewrite Hd. unfold correlate. by rewrite Hp.
  - intros exprs collected rawCerts decodedCerts rawUserIDs certs status
      Hb Hq Hne Hd Hp Hi labels. split; intros Hlen.
    + rewrite (readAndParseYAMLFile_at_pair _ _ _ _ _ Hb). simpl.
      unfold yamlPair. rewrite Hq. matched_text_not_empty.
      rewrite Hd. unfold correlate. rewrite Hp. simpl. rewrite Hi.
      rewrite collectUserIDs_filter. fold labels.
      apply Nat.eqb_neq in Hlen. rewrite Hlen. reflexivity.
    + rewrite (readAndParseYAMLFile_at_pair _ _ _ _ _ Hb). simpl.
      unfold labels in *. rewrite <- collectUserIDs_filter in *.
      by rewrite (yamlPair_labels_by_position _ _ _ _ _ _ _ _ Hq Hne Hd Hp Hi Hlen).
Qed.

End StructuredDocumentReader.

Section SecretReader.

Context {Certificate : Type} {ext : Externals Certificate}.

Lemma bare_records_fold (certs : list Certificate)
    (output : list (parsedCertificate Certificate)) :
  fold_left
    (fun output cert =>
       output ++ [{| cert := cert; userID := ""; yqMatchExpr := "" |}])
    certs output = output ++ map bare_record certs.
Proof.
  revert output. induction certs as [|c certs IH]; intros output; simpl.
  - by rewrite app_nil_r.
  - rewrite IH. by rewrite <- app_assoc.
Qed.

(** C8. For every secret object: when its data has no key [tls.crt],
    the secret reader fails with an error that names the secret and the
    key, and returns no record; when the key is there, its bytes go to
    the PEM decoder, an error of the decoder is returned with no record,
    and each certificate of the decoder comes back in a record with empty
    identity and expression. *)
Theorem readAndParseKubeSecret_tls_crt :
  forall (path : string) (secret : Secret),
    (Data secret !! "tls.crt"%string = None ->
     readAndParseKubeSecret path (Some secret) =
     Returns ([], Some ("secret " +:+ dquote +:+ Name secret +:+ dquote
                        +:+ " has no key " +:+ dquote +:+ "tls.crt" +:+ dquote))) /\
    (forall pemBytes : bytes,
        Data secret !! "tls.crt"%string = Some pemBytes ->
        (forall certs err,
            parsePEM pemBytes = Returns (certs, Some err) ->
            readAndParseKubeSecret path (Some secret) = Returns ([], Some err)) /\
        (forall certs,
            parsePEM pemBytes = Returns (certs, None) ->
            readAndParseKubeSecret path (Some secret) =
            Returns (map (fun c => {| cert := c; userID := ""; yqMatchExpr := "" |})
                       certs, None))).
Proof.
  intros path secret. unfold readAndParseKubeSecret. cbv zeta. split.
  - intros ->. reflexivity.
  - intros pemBytes ->. simpl. split.
    + intros certs err ->. reflexivity.
    + intros certs ->. simpl. by rewrite bare_records_fold.
Qed.

End SecretReader.

Section Dispatcher.

Context {Certificate : Type} {ext : Externals Certificate}.

(** C9. For every certificate source whose format is none of the
    three declared constants, [parse] does nothing: it returns a nil
    error and the source as it was, its certificates included. *)
Theorem parse_unknown_format_is_silent :
  forall cert : certificateRef Certificate,
    format cert <> certificateFormatPEM ->
    format cert <> certificateFormatYAML ->
    format cert <> certificateFormatKubeSecret ->
    parse cert = Returns (cert, None).
Proof.
  intros cert Hp Hy Hk. unfold parse.
  apply Z.eqb_neq in Hp, Hy, Hk. by rewrite Hp, Hy, Hk.
Qed.

End Dispatcher.

(** * The stand-in world meets the contract *)

Section StandIn.

Import Fixture.

Lemma fixture_strip_prefix_length (p s after : string) :
  strip_prefix p s = Some after ->
  String.length s = (String.length p + String.length after)%nat.
Proof.
  revert s. induction p as [|a p IH]; intros s Hs; simpl in *.
  - by inversion Hs.
  - destruct s as [|b s]; [discriminate|].
    destruct (Ascii.eqb a b); [|discriminate].
    simpl. by rewrite (IH s Hs).
Qed.

Lemma fixture_cut_length (marker s before after : string) :
  cut marker s = Some (before, after) ->
  String.length s =
  (String.length before + String.length marker + String.length after)%nat.
Proof.
  revert before. induction s as [|c s IH]; intros before Hc; simpl in Hc.
  - destruct (strip_prefix marker "") as [a|] eqn:Hp; [|discriminate].
    inversion Hc; subst. by apply fixture_strip_prefix_length in Hp.
  - destruct (strip_prefix marker (String c s)) as [a|] eqn:Hp.
    + inversion Hc; subst. by apply fixture_strip_prefix_length in Hp.
    + destruct (cut marker s) as [[b a]|] eqn:Hs; [|discriminate].
      inversion Hc; subst. simpl. by rewrite (IH b eq_refl).
Qed.

Lemma fixture_decode_consumes (sc : scenario) :
  pem_Decode_consumes (ext := world sc).
Proof.
  intros data block rest. simpl. unfold decode.
  destruct (cut beginMarker data) as [[before opened]|] eqn:Hb; [|discriminate].
  destruct (cut endMarker opened) as [[body rest']|] eqn:He; [|discriminate].
  intros Hd. inversion Hd; subst.
  apply fixture_cut_length in Hb, He. rewrite Hb, He. simpl. lia.
Qed.

Lemma fixture_cut_begin_cons (c : ascii) (s : string) :
  Ascii.eqb c "-" = false ->
  cut beginMarker (String c s) =
  match cut beginMarker s with
  | Some (before, after) => Some (String c before, after)
  | None => None
  end.
Proof.
  intros Hc.
  assert (strip_prefix beginMarker (String c s) = None) as Hp.
  { unfold beginMarker. rewrite append_cons. cbn [strip_prefix].
    by rewrite Ascii.eqb_sym, Hc. }
  cbn [cut]. by rewrite Hp.
Qed.

(** Bytes without a dash in front of a buffer change nothing to what the
    decoder finds in it. *)
Lemma fixture_decode_dashless (junk rest : string) :
  dashless junk = true ->
  decode (junk +:+ rest) =
  match decode rest with
  | (Some block, rest') => (Some block, rest')
  | (None, _) => (None, junk +:+ rest)
  end.
Proof.
  induction junk as [|c junk IH]; intros Hj.
  - rewrite append_nil. unfold decode.
    destruct (cut beginMarker rest) as [[before opened]|]; [|reflexivity].
    by destruct (cut endMarker opened) as [[body rest']|].
  - simpl in Hj. apply andb_prop in Hj as [Hc Hj].
    apply negb_true_iff in Hc. specialize (IH Hj).
    rewrite append_cons. unfold decode in *.
    rewrite (fixture_cut_begin_cons c _ Hc).
    destruct (cut beginMarker (junk +:+ rest)) as [[before opened]|].
    + destruct (cut endMarker opened) as [[body rest']|].
      * destruct (cut beginMarker rest) as [[before' opened']|]; [|discriminate].
        by destruct (cut endMarker opened') as [[body' rest'']|].
      * destruct (cut beginMarker rest) as [[before' opened']|]; [|reflexivity].
        by destruct (cut endMarker opened') as [[body' rest'']|].
    + destruct (cut beginMarker rest) as [[before' opened']|]; [|reflexivity].
      by destruct (cut endMarker opened') as [[body' rest'']|].
Qed.

Lemma fixture_passed_over (sc : scenario) (junk : string) :
  dashless junk = true -> passed_over (ext := world sc) junk.
Proof.
  intros Hj rest. unfold holds_no_block. simpl.
  rewrite (fixture_decode_dashless junk rest Hj).
  by destruct (decode rest) as [[block|] rest'].
Qed.

End StandIn.

(** * The readers run on the stand-in world *)

Section Runs.

Import Fixture.

(** Three blocks, the second of which does not parse: the error alone. *)
Lemma parsePEM_malformed_block_is_fatal_witness :
  exists bad err,
    located (ext := world nothing) (armor "0A" +:+ armor "1B" +:+ armor "0C") bad /\
    x509_ParseCertificate (Externals := world nothing) (Bytes bad) = inl err /\
    parsePEM (ext := world nothing) (armor "0A" +:+ armor "1B" +:+ armor "0C") =
    Returns ([], Some ("tried to parse malformed x509 data, " +:+ err)).
Proof.
  apply (parsePEM_malformed_block_is_fatal (ext := world nothing)
           (fixture_decode_consumes nothing)
           (armor "0A" +:+ armor "1B" +:+ armor "0C") (block_of "1B")
           "x509: malformed certificate").
  - apply (located_next (ext := world nothing) _ (block_of "0A")
             (armor "1B" +:+ armor "0C")); [reflexivity|].
    apply (located_first (ext := world nothing) _ _ (armor "0C")). reflexivity.
  - reflexivity.
Defined.

(** Two blocks one after the other: their two certificates, in order. *)
Lemma parsePEM_concatenated_blocks_witness :
  parsePEM (ext := world nothing) (concat_bytes [armor "0A"; armor "0B"]) =
  Returns (["0A"; "0B"]%string, None) /\
  length ["0A"; "0B"]%string = length [armor "0A"; armor "0B"].
Proof.
  apply (proj1 (parsePEM_concatenated_blocks (ext := world nothing)
                  (fixture_decode_consumes nothing))
           [armor "0A"; armor "0B"] [block_of "0A"; block_of "0B"]).
  - repeat constructor; intros rest; reflexivity.
  - repeat constructor.
Defined.

(** A line of text, a block, a second block and three NUL bytes: the
    two certificates and no error. *)
Lemma parsePEM_ignores_bytes_outside_blocks_witness :
  parsePEM (ext := world nothing)
    (layout [("junk" +:+ nl, armor "0A"); (""%string, armor "0B")] (make_bytes 3)) =
  Returns (["0A"; "0B"]%string, None).
Proof.
  apply (proj2 (proj2 (parsePEM_ignores_bytes_outside_blocks (ext := world nothing)))
           (fixture_decode_consumes nothing)
           [("junk" +:+ nl, armor "0A"); (""%string, armor "0B")]
           [block_of "0A"; block_of "0B"] (make_bytes 3)).
  - repeat constructor; simpl;
      try (apply fixture_passed_over; reflexivity); intros rest; reflexivity.
  - reflexivity.
  - repeat constructor.
Defined.

(** After the pair of the user, the pair of the cluster has one label
    for two certificates: the read fails and names both counts. *)
Lemma readAndParseYAMLFile_label_count_mismatch_witness :
  readAndParseYAMLFile (ext := world kubeconfig) config
    ([userFilePair] ++ clusterFilePair :: []) =
  Returns ([], Some ("failed to parse some labels in /etc/kube/config"
                     +:+ " (got 1 IDs but 2 certs for " +:+ dquote
                     +:+ "clusters.[*].name" +:+ dquote +:+ ")")).
Proof.
  apply (readAndParseYAMLFile_label_count_mismatch (ext := world kubeconfig)
           config [userFilePair] [] clusterFilePair
           [labelled userFilePair "0C"%string "admin"]
           ("ca.crt" +:+ nl) (armor "0A" +:+ armor "0B") ("prod" +:+ nl)
           ["0A"; "0B"]%string None).
  - reflexivity.
  - reflexivity.
  - discriminate.
  - reflexivity.
  - reflexivity.
  - reflexivity.
  - vm_compute. discriminate.
Defined.

(** The pair of the user twice gives its record twice, in order; the
    pair of the user and then the pair of the cluster gives the error of
    the second and not the record of the first. *)
Lemma readAndParseYAMLFile_accumulates_or_aborts_witness :
  readAndParseYAMLFile (ext := world kubeconfig) config
    ([userFilePair] ++ [userFilePair]) =
  Returns ([labelled userFilePair "0C"%string "admin"]
           ++ [labelled userFilePair "0C"%string "admin"], None) /\
  readAndParseYAMLFile (ext := world kubeconfig) config
    ([userFilePair] ++ clusterFilePair :: [userFilePair]) =
  Returns ([], Some ("failed to parse some labels in /etc/kube/config"
                     +:+ " (got 1 IDs but 2 certs for " +:+ dquote
                     +:+ "clusters.[*].name" +:+ dquote +:+ ")")).
Proof.
  split.
  - apply (readAndParseYAMLFile_accumulates_or_aborts (ext := world kubeconfig)
             (fixture_decode_consumes kubeconfig) config
             [userFilePair] [userFilePair]); reflexivity.
  - destruct (readAndParseYAMLFile_accumulates_or_aborts (ext := world kubeconfig)
                (fixture_decode_consumes kubeconfig) config
                [userFilePair] [userFilePair])
      as (_ & _ & _ & _ & _ & _ & _ & Hpair).
    apply (proj1 (Hpair clusterFilePair [labelled userFilePair "0C"%string "admin"]
                    ("ca.crt" +:+ nl) (armor "0A" +:+ armor "0B") ("prod" +:+ nl)
                    ["0A"; "0B"]%string None
                    eq_refl eq_refl ltac:(discriminate) eq_refl eq_refl eq_refl)).
    vm_compute. discriminate.
Defined.

(** The matched text of the client certificate is read from the
    directory of the document, without its newline. *)
Lemma readAndParseYAMLFile_file_reference_witness :
  strings_TrimRight (join (dir config) ("client.crt" +:+ nl)) nl =
  "/etc/kube/client.crt"%string /\
  readAndParseYAMLFile_loop (ext := world kubeconfig) config [userFilePair] [] =
  (call (output, err) <-
     correlate (ext := world kubeconfig) config userFilePair (armor "0C") [];
   match err with
   | Some err => Returns ([], Some err)
   | None => Returns (output, None)
   end).
Proof.
  split; [reflexivity|].
  apply (readAndParseYAMLFile_file_reference (ext := world kubeconfig)
           config userFilePair ("client.crt" +:+ nl) eq_refl eq_refl
           ltac:(discriminate) [] []).
Defined.

(** A secret without the key and a secret with it. *)
Lemma readAndParseKubeSecret_tls_crt_witness :
  readAndParseKubeSecret (ext := world nothing) "default/db-password"
    (Some opaqueSecret) =
  Returns ([], Some ("secret " +:+ dquote +:+ "db-password" +:+ dquote
                     +:+ " has no key " +:+ dquote +:+ "tls.crt" +:+ dquote)) /\
  readAndParseKubeSecret (ext := world nothing) "default/web-tls"
    (Some tlsSecret) =
  Returns ([{| cert := "0A"%string; userID := ""; yqMatchExpr := "" |}], None).
Proof.
  split.
  - apply (proj1 (readAndParseKubeSecret_tls_crt (ext := world nothing)
                    "default/db-password" opaqueSecret)).
    reflexivity.
  - apply (proj2 (proj2 (readAndParseKubeSecret_tls_crt (ext := world nothing)
                           "default/web-tls" tlsSecret) (armor "0A") eq_refl)
             ["0A"%string]).
    reflexivity.
Defined.

(** A source with format 3 comes back as it was, with a nil error. *)
Lemma parse_unknown_format_is_silent_witness :
  parse (ext := world nothing)
    {| path := "/etc/ssl/cert.p12"; format := 3; certificates := [bare_record "0A"%string];
       userIDs := []; yamlPaths := []; kubeSecret := None |} =
  Returns ({| path := "/etc/ssl/cert.p12"; format := 3;
              certificates := [bare_record "0A"%string];
              userIDs := []; yamlPaths := []; kubeSecret := None |}, None).
Proof.
  apply (parse_unknown_format_is_silent (ext := world nothing)); discriminate.
Defined.

(** C6. Where the code parts from the claim: the inline data of the
    document is not base64, [Decode] says so, and the read goes on with
    the zero bytes of the untouched buffer and ends with no error and no
    record.  The claim has the read fail with an encoding error. *)
Theorem readAndParseYAMLFile_base64_failure_unnoticed :
  yq_CombinedOutput (Externals := world corruptInline) config
    (CertMatchExpr clusterInlinePair) = ("!!!!" +:+ nl, None) /\
  base64_StdEncoding_Decode (Externals := world corruptInline)
    (make_bytes (base64_StdEncoding_DecodedLen 5)) ("!!!!" +:+ nl) =
  (make_bytes 3, 0%nat, Some "illegal base64 data at input byte 0"%string) /\
  decodeRawCerts (ext := world corruptInline) config clusterInlinePair
    ("!!!!" +:+ nl) = (make_bytes 3, None) /\
  readAndParseYAMLFile (ext := world corruptInline) config [clusterInlinePair] =
  Returns ([], None).
Proof. repeat (split; [vm_compute; reflexivity|]). vm_compute. reflexivity. Qed.

(** C7. Where the code parts from the claim: the evaluator exits with
    an error on the identity expression.  With one certificate found, the
    read fails with the label-count message, in which neither the exit
    error nor the diagnostic output of the evaluator occurs; with no
    certificate found, the read does not fail at all.  The claim has the
    read fail with the diagnostic output in the error. *)
Theorem readAndParseYAMLFile_label_query_failure_unreported :
  query failingLabelQuery config "clusters.[*.name" =
  (""%string, "Error: bad path expression"%string, Some "exit status 1"%string) /\
  readAndParseYAMLFile (ext := world failingLabelQuery) config [brokenLabelPair] =
  Returns ([], Some (labelCountError config 0 1 "clusters.[*.name")) /\
  occurs "Error: bad path expression"
    (labelCountError config 0 1 "clusters.[*.name") = false /\
  occurs "exit status 1" (labelCountError config 0 1 "clusters.[*.name") = false /\
  readAndParseYAMLFile (ext := world failingLabelQuery) config
    [brokenLabelEmptyFilePair] = Returns ([], None).
Proof. repeat (split; [vm_compute; reflexivity|]). vm_compute. reflexivity. Qed.

End Runs.

(** * Further properties of the PEM decoder *)

Section PEMDecoderBounds.

Context {Certificate : Type} {ext : Externals Certificate}.

Lemma append_assoc (a b c : string) : (a +:+ b) +:+ c = a +:+ b +:+ c.
Proof.
  induction a as [|x a IH]; [reflexivity|].
  rewrite !append_cons. by rewrite IH.
Qed.

(** Each certificate the loop adds costs the buffer at least one byte. *)
Lemma parsePEM_loop_count :
  pem_Decode_consumes ->
  forall fuel (data : bytes) (output certs : list Certificate),
    parsePEM_loop fuel data output = Returns (certs, None) ->
    (length certs <= length output + String.length data)%nat.
Proof.
  intros Hc fuel.
  induction fuel as [|fuel IH]; intros data output certs Hr; [discriminate|].
  rewrite parsePEM_loop_step in Hr.
  destruct (pem_Decode data) as [[block|] rest] eqn:Hd.
  - destruct (x509_ParseCertificate (Bytes block)) as [reason|c]; [discriminate|].
    apply IH in Hr. rewrite length_app in Hr. simpl in Hr.
    apply Hc in Hd. lia.
  - inversion Hr; subst. lia.
Qed.

(** For every buffer, under the contract of the decoder, the loop of
    [parsePEM] ends and [parsePEM] returns; it returns no more
    certificates than the buffer has bytes, and none next to an error. *)
Theorem parsePEM_ends_within_buffer :
  pem_Decode_consumes ->
  forall data : bytes,
    exists (certs : list Certificate) (err : option error),
      parsePEM data = Returns (certs, err) /\
      (length certs <= String.length data)%nat /\
      (err <> None -> certs = []).
Proof.
  intros Hc data.
  destruct (parsePEM_returns Hc data) as [[certs [e|]] Hr];
    exists certs; eexists; (split; [exact Hr|]).
  - rewrite (parsePEM_error_no_certs _ _ _ Hr). split; [simpl; lia | done].
  - split; [|done]. apply (parsePEM_loop_count Hc) in Hr. simpl in Hr. lia.
Qed.

Lemma encodes_nonempty_consumes (enc : bytes) (block : Block) :
  pem_Decode_consumes -> encodes enc block -> enc <> ""%string.
Proof.
  intros Hc He. exact (encodes_nonempty enc block "" He (empty_holds_no_block Hc)).
Qed.

Lemma concat_bytes_length (encs : list bytes) (blocks : list Block) :
  pem_Decode_consumes ->
  Forall2 encodes encs blocks ->
  (length encs <= String.length (concat_bytes encs))%nat.
Proof.
  intros Hc He. induction He as [|enc block encs blocks H1 _ IH]; simpl; [lia|].
  rewrite length_append. pose proof (encodes_nonempty_consumes _ _ Hc H1).
  destruct enc; [done | simpl; lia].
Qed.

Lemma parsePEM_loop_first_malformed (encs : list bytes) (blocks : list Block)
    (certs : list Certificate) (bad_enc : bytes) (bad : Block) (reason : error) :
  Forall2 encodes encs blocks ->
  Forall2 (fun block cert => x509_ParseCertificate (Bytes block) = inr cert)
    blocks certs ->
  encodes bad_enc bad ->
  x509_ParseCertificate (Bytes bad) = inl reason ->
  forall (rest : bytes) fuel (output : list Certificate),
    (length encs < fuel)%nat ->
    parsePEM_loop fuel (concat_bytes encs +:+ bad_enc +:+ rest) output =
    Returns ([], Some (malformedError reason)).
Proof.
  intros He. revert certs.
  induction He as [|enc block encs blocks H1 _ IH]; intros certs Hp Hb Hr rest fuel
    output Hlt; (destruct fuel as [|fuel]; [simpl in Hlt; lia|]);
    rewrite parsePEM_loop_step.
  - simpl. rewrite append_nil, Hb, Hr. reflexivity.
  - inversion Hp as [|? c ? certs' Hc1 Hp']; subst.
    simpl. rewrite append_assoc, H1, Hc1.
    apply (IH certs' Hp' Hb Hr). simpl in Hlt. lia.
Qed.

(** For every buffer that opens with well-formed blocks whose DER parses,
    followed by a well-formed block whose DER does not: [parsePEM]
    returns the malformed-data error of that block and no certificate,
    whatever follows it, further certificates included. *)
Theorem parsePEM_stops_at_first_malformed_block :
  pem_Decode_consumes ->
  forall (encs : list bytes) (blocks : list Block) (certs : list Certificate)
         (bad_enc : bytes) (bad : Block) (reason : error) (rest : bytes),
    Forall2 encodes encs blocks ->
    Forall2 (fun block cert => x509_ParseCertificate (Bytes block) = inr cert)
      blocks certs ->
    encodes bad_enc bad ->
    x509_ParseCertificate (Bytes bad) = inl reason ->
    parsePEM (concat_bytes encs +:+ bad_enc +:+ rest) =
    Returns ([], Some (malformedError reason)).
Proof.
  intros Hc encs blocks certs bad_enc bad reason rest He Hp Hb Hr.
  apply (parsePEM_loop_first_malformed encs blocks certs bad_enc bad reason He Hp Hb Hr).
  pose proof (concat_bytes_length encs blocks Hc He).
  rewrite length_append. lia.
Qed.

End PEMDecoderBounds.

(** * The direct-file reader, the secret reader and the dispatcher *)

Section FlatReaders.

Context {Certificate : Type} {ext : Externals Certificate}.

Implicit Types (cert : certificateRef Certificate)
  (records : list (parsedCertificate Certificate)).

(** For every path: when the file cannot be read, the direct-file reader
    returns the error of the file read and no record, and the PEM decoder
    is not run; when it can, the error of the PEM decoder comes back with
    no record, and its certificates come back one record each, in order,
    with empty identity and expression. *)
Theorem readAndParsePEMFile_wraps_certificates :
  forall path : string,
    match ioutil_ReadFile path with
    | (_, Some err) => readAndParsePEMFile path = Returns ([], Some err)
    | (contents, None) =>
      (forall certs err,
          parsePEM contents = Returns (certs, Some err) ->
          readAndParsePEMFile path = Returns ([], Some err)) /\
      (forall certs,
          parsePEM contents = Returns (certs, None) ->
          readAndParsePEMFile path = Returns (map bare_record certs, None) /\
          length (map bare_record certs) = length certs)
    end.
Proof.
  intros path. unfold readAndParsePEMFile.
  destruct (ioutil_ReadFile path) as [contents [err|]]; [reflexivity|].
  cbv zeta. split.
  - intros certs err ->. reflexivity.
  - intros certs ->. simpl. rewrite bare_records_fold. simpl.
    split; [reflexivity | apply length_map].
Qed.

(** For every secret that has the key [tls.crt] and every file that
    holds the same bytes: the secret reader and the direct-file reader
    return the same thing. *)
Theorem readAndParseKubeSecret_agrees_with_file :
  forall (path name : string) (secret : Secret) (pemBytes : bytes),
    ioutil_ReadFile path = (pemBytes, None) ->
    Data secret !! "tls.crt"%string = Some pemBytes ->
    readAndParseKubeSecret name (Some secret) = readAndParsePEMFile path.
Proof.
  intros path name secret pemBytes Hf Hk.
  unfold readAndParseKubeSecret, readAndParsePEMFile. cbv zeta.
  rewrite Hf, Hk. reflexivity.
Qed.

(** For every secret and every key other than [tls.crt]: setting that
    key to any value, or removing it, changes nothing to what the secret
    reader returns. *)
Theorem readAndParseKubeSecret_ignores_other_keys :
  forall (path : string) (secret : Secret) (key : string) (value : bytes),
    key <> "tls.crt"%string ->
    readAndParseKubeSecret path
      (Some {| Name := Name secret; Data := <[key := value]> (Data secret) |}) =
    readAndParseKubeSecret path (Some secret) /\
    readAndParseKubeSecret path
      (Some {| Name := Name secret; Data := delete key (Data secret) |}) =
    readAndParseKubeSecret path (Some secret).
Proof.
  intros path secret key value Hne.
  unfold readAndParseKubeSecret. cbv zeta. simpl.
  rewrite lookup_insert_ne by done. rewrite lookup_delete_ne by done.
  split; reflexivity.
Qed.

Lemma readAndParsePEMFile_error_no_records (path : string) records (e : error) :
  readAndParsePEMFile path = Returns (records, Some e) -> records = [].
Proof.
  unfold readAndParsePEMFile.
  destruct (ioutil_ReadFile path) as [contents [err|]]; [by inversion 1|].
  cbv zeta. destruct (parsePEM contents) as [[certs [err|]]| |]; simpl;
    by inversion 1.
Qed.

Lemma readAndParseKubeSecret_error_no_records (path : string)
    (secret : option Secret) records (e : error) :
  readAndParseKubeSecret path secret = Returns (records, Some e) -> records = [].
Proof.
  unfold readAndParseKubeSecret. cbv zeta.
  destruct secret as [secret|]; [|discriminate].
  destruct (Data secret !! "tls.crt"%string) as [pemBytes|]; [|by inversion 1].
  destruct (parsePEM _) as [[certs [err|]]| |]; simpl; by inversion 1.
Qed.

Lemma readAndParseYAMLFile_loop_error_no_records (filePath : string)
    (paths : list YAMLCertRef) records output (e : error) :
  readAndParseYAMLFile_loop filePath paths output = Returns (records, Some e) ->
  records = [].
Proof.
  revert output. induction paths as [|exprs paths IH]; intros output; simpl.
  - discriminate.
  - destruct (yamlPair filePath exprs output) as [[output' [err|]]| |]; simpl;
      [by inversion 1 | apply IH | discriminate | discriminate].
Qed.

(** For every source: [parse] changes no field other than the
    certificates; the path, the format, the identities, the pairs and the
    secret object are after the call what they were before. *)
Theorem parse_keeps_other_fields :
  forall cert cert' (err : option error),
    parse cert = Returns (cert', err) ->
    path cert' = path cert /\ format cert' = format cert /\
    userIDs cert' = userIDs cert /\ yamlPaths cert' = yamlPaths cert /\
    kubeSecret cert' = kubeSecret cert.
Proof.
  intros cert cert' err. unfold parse.
  destruct (format cert =? certificateFormatPEM);
    [destruct (readAndParsePEMFile (path cert)) as [[certs e]| |] |
     destruct (format cert =? certificateFormatYAML);
     [destruct (readAndParseYAMLFile (path cert) (yamlPaths cert)) as [[certs e]| |] |
      destruct (format cert =? certificateFormatKubeSecret);
      [destruct (readAndParseKubeSecret (path cert) (kubeSecret cert))
         as [[certs e]| |] |]]];
    simpl; intros Hr; inversion Hr; subst; done.
Qed.

(** For every source: when [parse] returns an error, the source is left
    with no certificates, whatever it held before the call. *)
Theorem parse_error_leaves_no_certificates :
  forall cert cert' (e : error),
    parse cert = Returns (cert', Some e) -> certificates cert' = [].
Proof.
  intros cert cert' e. unfold parse.
  destruct (format cert =? certificateFormatPEM).
  { destruct (readAndParsePEMFile (path cert)) as [[certs err]| |] eqn:Hr;
      simpl; intros H; inversion H; subst. simpl.
    by apply readAndParsePEMFile_error_no_records in Hr. }
  destruct (format cert =? certificateFormatYAML).
  { destruct (readAndParseYAMLFile (path cert) (yamlPaths cert))
      as [[certs err]| |] eqn:Hr; simpl; intros H; inversion H; subst. simpl.
    by apply readAndParseYAMLFile_loop_error_no_records in Hr. }
  destruct (format cert =? certificateFormatKubeSecret).
  { destruct (readAndParseKubeSecret (path cert) (kubeSecret cert))
      as [[certs err]| |] eqn:Hr; simpl; intros H; inversion H; subst. simpl.
    by apply readAndParseKubeSecret_error_no_records in Hr. }
  discriminate.
Qed.

(** For every source: what [parse] stores and returns does not depend
    on the certificates stored before, so a second [parse] of the source
    it left gives the same source and the same error again; certificates
    are replaced, not added to. *)
Theorem parse_twice :
  forall cert cert' (err : option error),
    parse cert = Returns (cert', err) -> parse cert' = Returns (cert', err).
Proof.
  intros cert cert' err. unfold parse.
  destruct (format cert =? certificateFormatPEM) eqn:Hp.
  { destruct (readAndParsePEMFile (path cert)) as [[certs e]| |] eqn:Hr;
      simpl; intros H; inversion H; subst. simpl. by rewrite Hp, Hr. }
  destruct (format cert =? certificateFormatYAML) eqn:Hy.
  { destruct (readAndParseYAMLFile (path cert) (yamlPaths cert))
      as [[certs e]| |] eqn:Hr; simpl; intros H; inversion H; subst. simpl.
    by rewrite Hp, Hy, Hr. }
  destruct (format cert =? certificateFormatKubeSecret) eqn:Hk.
  { destruct (readAndParseKubeSecret (path cert) (kubeSecret cert))
      as [[certs e]| |] eqn:Hr; simpl; intros H; inversion H; subst. simpl.
    by rewrite Hp, Hy, Hk, Hr. }
  intros H; inversion H; subst. by rewrite Hp, Hy, Hk.
Qed.

(** For every source that is there, a receiver that is not nil, under
    the contract of the decoder: [parse] panics exactly when the format
    is the secret format and the source has no secret object, and in
    every other case it returns.  (On a nil receiver the method panics
    at [cert.format], whatever else; [parse] here is the method on the
    source the receiver points to.) *)
Theorem parse_panics_only_without_secret :
  pem_Decode_consumes ->
  forall cert,
    (parse cert = Panics <->
     format cert = certificateFormatKubeSecret /\ kubeSecret cert = None) /\
    (parse cert <> Panics -> exists cert' err, parse cert = Returns (cert', err)).
Proof.
  intros Hc cert. unfold parse.
  destruct (format cert =? certificateFormatPEM) eqn:Hp.
  { apply Z.eqb_eq in Hp. unfold readAndParsePEMFile.
    destruct (ioutil_ReadFile (path cert)) as [contents [e|]]; simpl.
    - split; [|eauto]. split; [discriminate|]. intros [Hk _].
      rewrite Hk in Hp. discriminate.
    - cbv zeta. destruct (parsePEM_returns Hc contents) as [[certs [e|]] ->];
        simpl; (split; [|eauto]); (split; [discriminate|]); intros [Hk _];
        rewrite Hk in Hp; discriminate. }
  destruct (format cert =? certificateFormatYAML) eqn:Hy.
  { apply Z.eqb_eq in Hy. unfold readAndParseYAMLFile.
    destruct (readAndParseYAMLFile_loop_appends_or_fails Hc (path cert) (yamlPaths cert))
      as [[r H]|[e H]]; rewrite H; simpl; (split; [|eauto]);
      (split; [discriminate|]); intros [Hk _]; rewrite Hk in Hy; discriminate. }
  destruct (format cert =? certificateFormatKubeSecret) eqn:Hk.
  { apply Z.eqb_eq in Hk. unfold readAndParseKubeSecret. cbv zeta.
    destruct (kubeSecret cert) as [secret|]; simpl.
    - destruct (Data secret !! "tls.crt"%string) as [pemBytes|]; simpl.
      + destruct (parsePEM_returns Hc pemBytes) as [[certs [e|]] ->]; simpl;
          (split; [|eauto]); (split; [discriminate|]); intros [_ ?]; discriminate.
      + split; [|eauto]. split; [discriminate|]. intros [_ ?]; discriminate.
    - split; [|done]. split; done. }
  apply Z.eqb_neq in Hk. split; [|eauto]. split; [discriminate|]. intros [? _]. done.
Qed.

(** For every direct-file source whose file holds K well-formed blocks
    one after the other, each with DER that parses: [parse] returns no
    error and leaves the source with the K certificates in order, each
    in a record with empty identity and expression, in place of what it
    held.  (The decoder is assumed to return, with a block, a remainder
    shorter than its input.) *)
Theorem parse_direct_file_of_blocks :
  pem_Decode_consumes ->
  forall cert (encs : list bytes) (blocks : list Block) (certs : list Certificate),
    format cert = certificateFormatPEM ->
    ioutil_ReadFile (path cert) = (concat_bytes encs, None) ->
    Forall2 encodes encs blocks ->
    Forall2 (fun block c => x509_ParseCertificate (Bytes block) = inr c)
      blocks certs ->
    parse cert = Returns (set_certificates cert (map bare_record certs), None).
Proof.
  intros Hc cert encs blocks certs Hf Hr He Hp.
  unfold parse. rewrite Hf. simpl.
  unfold readAndParsePEMFile. rewrite Hr. cbv zeta.
  rewrite (parsePEM_concat encs blocks Hc He).
  rewrite (parse_blocks_all_parse blocks certs [] Hp). simpl.
  by rewrite bare_records_fold.
Qed.

End FlatReaders.

(** * Further properties of the structured-document reader *)

Section Labels.

Lemma strings_Split_not_nil (s : string) (sep : ascii) : strings_Split s sep <> [].
Proof.
  induction s as [|c s IH]; simpl; [done|].
  destruct (strings_Split s sep) as [|field fields]; [done|].
  by destruct (Ascii.eqb c sep).
Qed.

(** The text up to the first separator is the first field. *)
Lemma strings_Split_first_field (line rest : string) (sep : ascii) :
  in_cutset sep line = false ->
  strings_Split (line +:+ String sep rest) sep = line :: strings_Split rest sep.
Proof.
  induction line as [|c line IH]; intros Hl.
  - rewrite append_nil. cbn [strings_Split].
    pose proof (strings_Split_not_nil rest sep).
    destruct (strings_Split rest sep) as [|field fields]; [done|].
    by rewrite Ascii.eqb_refl.
  - cbn [in_cutset] in Hl. destruct (Ascii.eqb sep c) eqn:Hc; [discriminate|].
    rewrite append_cons. cbn [strings_Split]. rewrite (IH Hl).
    by rewrite Ascii.eqb_sym, Hc.
Qed.

(** No field has the separator in it. *)
Lemma strings_Split_fields (s : string) (sep : ascii) :
  Forall (fun field => in_cutset sep field = false) (strings_Split s sep).
Proof.
  induction s as [|c s IH]; simpl; [by repeat constructor|].
  destruct (strings_Split s sep) as [|field fields]; [constructor|].
  inversion IH as [|? ? Hf Hfs]; subst.
  destruct (Ascii.eqb c sep) eqn:Hc.
  - by repeat constructor.
  - constructor; [|done]. cbn [in_cutset]. by rewrite Ascii.eqb_sym, Hc.
Qed.

Lemma collectUserIDs_one_line (rawUserIDs : bytes) :
  Forall one_line (collectUserIDs rawUserIDs).
Proof.
  rewrite collectUserIDs_filter. apply Forall_forall. intros id Hid.
  apply list_elem_of_filter in Hid as [Hne Hin]. split; [done|].
  pose proof (strings_Split_fields rawUserIDs newline) as Hf.
  rewrite Forall_forall in Hf. by apply Hf.
Qed.

(** For every list of labels, each not empty and without a newline: the
    labels the reader collects from the text that has them one per line
    are those labels, in order. *)
Theorem collectUserIDs_unlines :
  forall labels : list string,
    Forall one_line labels -> collectUserIDs (unlines labels) = labels.
Proof.
  intros labels Hl. rewrite collectUserIDs_filter.
  induction Hl as [|label labels [Hne Hnl] _ IH]; [reflexivity|].
  cbn [unlines]. unfold nl at 1. rewrite append_cons, append_nil.
  rewrite (strings_Split_first_field _ _ _ Hnl).
  rewrite filter_cons_True by done. by rewrite IH.
Qed.

End Labels.

Section StructuredDocumentPairs.

Context {Certificate : Type} {ext : Externals Certificate}.

Implicit Types (filePath : string) (exprs : YAMLCertRef)
  (output records : list (parsedCertificate Certificate)).

(** For every list of pairs and every pair in it whose certificate
    expression evaluates, without error, to no text at all: the read
    returns what it returns without that pair. *)
Theorem readAndParseYAMLFile_skips_unmatched_pair :
  forall filePath (before after : list YAMLCertRef) exprs,
    yq_CombinedOutput filePath (CertMatchExpr exprs) = (EmptyString, None) ->
    readAndParseYAMLFile filePath (before ++ exprs :: after) =
    readAndParseYAMLFile filePath (before ++ after).
Proof.
  intros filePath before after exprs Hq. unfold readAndParseYAMLFile.
  rewrite !readAndParseYAMLFile_loop_app.
  destruct (readAndParseYAMLFile_loop filePath before []) as [[output [e|]]| |];
    try reflexivity.
  simpl. unfold yamlPair. rewrite Hq. reflexivity.
Qed.

(** For every pair the read gets to: when the evaluator fails on the
    certificate expression, the read ends there with no record and with
    the exit error of the evaluator, the text [ | stderr: ] and the
    combined output of the evaluator as they are; the pairs after it
    play no part. *)
Theorem readAndParseYAMLFile_certificate_query_failure_aborts :
  forall filePath (before after : list YAMLCertRef) exprs collected
         (combined : bytes) (err : error),
    readAndParseYAMLFile filePath before = Returns (collected, None) ->
    yq_CombinedOutput filePath (CertMatchExpr exprs) = (combined, Some err) ->
    readAndParseYAMLFile filePath (before ++ exprs :: after) =
    Returns ([], Some (err +:+ " | stderr: " +:+ combined)).
Proof.
  intros filePath before after exprs collected combined err Hb Hq.
  rewrite (readAndParseYAMLFile_at_pair _ _ _ _ _ Hb).
  by apply readAndParseYAMLFile_certificate_query_failure.
Qed.

(** For every pair the read gets to with certificate material and as
    many labels as certificates: the read of the pairs up to and
    including it returns what was collected before, followed by one
    record per certificate, in order, the record at each position made
    of the certificate and the label at that position and of the
    certificate expression of the pair. *)
Theorem readAndParseYAMLFile_labels_by_position :
  forall filePath (before : list YAMLCertRef) exprs collected
         (rawCerts decodedCerts rawUserIDs : bytes) (certs : list Certificate)
         (status : option error),
    readAndParseYAMLFile filePath before = Returns (collected, None) ->
    yq_CombinedOutput filePath (CertMatchExpr exprs) = (rawCerts, None) ->
    rawCerts <> ""%string ->
    decodeRawCerts filePath exprs rawCerts = (decodedCerts, None) ->
    parsePEM decodedCerts = Returns (certs, None) ->
    yq_Output filePath (IDMatchExpr exprs) = (rawUserIDs, status) ->
    let labels :=
      filter (fun id : string => id <> ""%string) (strings_Split rawUserIDs newline) in
    length labels = length certs ->
    readAndParseYAMLFile filePath (before ++ [exprs]) =
    Returns (collected ++
             zip_with (fun c id => {| cert := c; userID := id;
                                      yqMatchExpr := CertMatchExpr exprs |})
               certs labels, None).
Proof.
  intros filePath before exprs collected rawCerts decodedCerts rawUserIDs certs
    status Hb Hq Hne Hd Hp Hi labels Hlen.
  rewrite (readAndParseYAMLFile_at_pair _ _ _ _ _ Hb). simpl.
  unfold labels in *. rewrite <- collectUserIDs_filter in *.
  by rewrite (yamlPair_labels_by_position _ _ _ _ _ _ _ _ Hq Hne Hd Hp Hi Hlen).
Qed.

(** The records the inner loop appends carry labels of the list and the
    certificate expression of the pair. *)
Lemma appendRecords_labelled (certs : list Certificate) (index : nat)
    (ids : list string) exprs output records :
  appendRecords certs index ids exprs output = Returns records ->
  exists added,
    records = output ++ added /\
    Forall (fun r => userID r ∈ ids /\ yqMatchExpr r = CertMatchExpr exprs) added.
Proof.
  revert index output.
  induction certs as [|c certs IH]; intros index output; simpl.
  - intros Hr. inversion Hr; subst. exists []. by rewrite app_nil_r.
  - destruct (ids !! index) as [id|] eqn:Hid; [|discriminate].
    intros Hr. apply IH in Hr as (added & -> & Ha).
    eexists (_ :: added). split; [by rewrite <- app_assoc|].
    constructor; [|done]. simpl. split; [|done].
    by apply list_elem_of_lookup_2 in Hid.
Qed.

Lemma yamlPair_labelled filePath exprs output records :
  yamlPair filePath exprs output = Returns (records, None) ->
  exists added,
    records = output ++ added /\
    Forall (fun r => one_line (userID r) /\ yqMatchExpr r = CertMatchExpr exprs)
      added.
Proof.
  unfold yamlPair.
  destruct (yq_CombinedOutput filePath (CertMatchExpr exprs)) as [rawCerts [e|]];
    [discriminate|].
  destruct (String.length rawCerts =? 0)%nat.
  { intros Hr. inversion Hr; subst. exists []. by rewrite app_nil_r. }
  destruct (decodeRawCerts filePath exprs rawCerts) as [decodedCerts [e|]];
    [discriminate|].
  unfold correlate.
  destruct (parsePEM decodedCerts) as [[certs [e|]]| |]; simpl; try discriminate.
  destruct (yq_Output filePath (IDMatchExpr exprs)) as [rawUserIDs status].
  destruct (negb _); [discriminate|].
  destruct (appendRecords certs 0 (collectUserIDs rawUserIDs) exprs output)
    as [records'| |] eqn:Ha; simpl; try discriminate.
  intros Hr. inversion Hr; subst.
  apply appendRecords_labelled in Ha as (added & -> & Hadd).
  exists added. split; [done|].
  eapply Forall_impl; [exact Hadd|]. intros r [Hin Hx]. split; [|done].
  pose proof (collectUserIDs_one_line rawUserIDs) as Hl.
  rewrite Forall_forall in Hl. by apply Hl.
Qed.

Lemma readAndParseYAMLFile_loop_labelled filePath (paths : list YAMLCertRef)
    output records :
  readAndParseYAMLFile_loop filePath paths output = Returns (records, None) ->
  exists added,
    records = output ++ added /\
    Forall (fun r => one_line (userID r) /\
                     exists exprs, exprs ∈ paths /\
                                   yqMatchExpr r = CertMatchExpr exprs) added.
Proof.
  revert output. induction paths as [|exprs paths IH]; intros output; simpl.
  - intros Hr. inversion Hr; subst. exists []. by rewrite app_nil_r.
  - destruct (yamlPair filePath exprs output) as [[output' [e|]]| |] eqn:Hy;
      simpl; try discriminate.
    intros Hr. apply IH in Hr as (added2 & -> & H2).
    apply yamlPair_labelled in Hy as (added1 & -> & H1).
    exists (added1 ++ added2). split; [by rewrite <- app_assoc|].
    apply Forall_app. split.
    + eapply Forall_impl; [exact H1|]. intros r [Hl Hx]. split; [done|].
      exists exprs. split; [left | done].
    + eapply Forall_impl; [exact H2|]. intros r [Hl (x & Hin & Hx)].
      split; [done|]. exists x. split; [by right | done].
Qed.

(** For every Structured-Document read that succeeds: every record it
    returns has an identity that is not empty and has no newline in it,
    and an expression that is the certificate expression of one of the
    pairs of the read. *)
Theorem readAndParseYAMLFile_records_are_labelled :
  forall filePath (paths : list YAMLCertRef) records,
    readAndParseYAMLFile filePath paths = Returns (records, None) ->
    Forall (fun r => one_line (userID r) /\
                     exists exprs, exprs ∈ paths /\
                                   yqMatchExpr r = CertMatchExpr exprs) records.
Proof.
  intros filePath paths records Hr.
  apply readAndParseYAMLFile_loop_labelled in Hr as (added & -> & Ha). exact Ha.
Qed.

Lemma parsePEM_loop_no_panic fuel (data : bytes) (certs : list Certificate) :
  parsePEM_loop fuel data certs <> Panics.
Proof.
  revert data certs. induction fuel as [|fuel IH]; intros data certs; [done|].
  rewrite parsePEM_loop_step.
  destruct (pem_Decode data) as [[block|] rest]; [|done].
  destruct (x509_ParseCertificate (Bytes block)); [done | apply IH].
Qed.

Lemma yamlPair_no_panic filePath exprs output :
  yamlPair filePath exprs output <> Panics.
Proof.
  unfold yamlPair.
  destruct (yq_CombinedOutput filePath (CertMatchExpr exprs)) as [rawCerts [e|]];
    [done|].
  destruct (String.length rawCerts =? 0)%nat; [done|].
  destruct (decodeRawCerts filePath exprs rawCerts) as [decodedCerts [e|]]; [done|].
  unfold correlate.
  destruct (parsePEM decodedCerts) as [[certs [e|]]| |] eqn:Hp; simpl; try done.
  - destruct (yq_Output filePath (IDMatchExpr exprs)) as [rawUserIDs status].
    destruct (length (collectUserIDs rawUserIDs) =? length certs)%nat eqn:Hn;
      simpl; [|done].
    apply Nat.eqb_eq in Hn. by rewrite appendRecords_zip by (simpl; lia).
  - by apply parsePEM_loop_no_panic in Hp.
Qed.

(** For every Structured-Document read, whatever the world outside does:
    the read does not panic; the index into the labels at line 164 is in
    range every time it is used. *)
Theorem readAndParseYAMLFile_never_panics :
  forall filePath (paths : list YAMLCertRef),
    readAndParseYAMLFile filePath paths <> Panics.
Proof.
  intros filePath paths. unfold readAndParseYAMLFile.
  generalize (@nil (parsedCertificate Certificate)) as output.
  induction paths as [|exprs paths IH]; intros output; simpl; [done|].
  pose proof (yamlPair_no_panic filePath exprs output).
  destruct (yamlPair filePath exprs output) as [[output' [e|]]| |]; simpl;
    [done | apply IH | done | done].
Qed.

End StructuredDocumentPairs.

Section StructuredDocumentEncodings.

Context {Certificate : Type} {ext : Externals Certificate}.

Implicit Types (filePath : string) (exprs : YAMLCertRef)
  (output records : list (parsedCertificate Certificate)).

(** For every pair whose format is neither of the two constants and
    whose certificate expression evaluates to text that is not empty:
    nothing is decoded and no certificate is found; with no label the
    pair adds nothing and the read goes on, and with labels the read
    fails with the label-count error for that many labels and 0
    certificates.  (The decoder is assumed to return, with a block, a
    remainder shorter than its input.) *)
Theorem readAndParseYAMLFile_unknown_encoding :
  pem_Decode_consumes ->
  forall filePath exprs (rawCerts rawUserIDs : bytes) (status : option error),
    Format exprs <> YAMLCertFormatBase64 ->
    Format exprs <> YAMLCertFormatFile ->
    yq_CombinedOutput filePath (CertMatchExpr exprs) = (rawCerts, None) ->
    rawCerts <> ""%string ->
    yq_Output filePath (IDMatchExpr exprs) = (rawUserIDs, status) ->
    let labels :=
      filter (fun id : string => id <> ""%string) (strings_Split rawUserIDs newline) in
    forall (more : list YAMLCertRef) output,
      readAndParseYAMLFile_loop filePath (exprs :: more) output =
      match labels with
      | [] => readAndParseYAMLFile_loop filePath more output
      | _ :: _ =>
        Returns ([], Some (labelCountError filePath (length labels) 0
                             (IDMatchExpr exprs)))
      end.
Proof.
  intros Hc filePath exprs rawCerts rawUserIDs status Hb Hf Hq Hne Hi labels
    more output.
  simpl. unfold yamlPair. rewrite Hq.
  destruct (String.length rawCerts =? 0)%nat eqn:H0.
  { apply length_zero_iff_empty in H0. done. }
  unfold decodeRawCerts. apply Z.eqb_neq in Hb, Hf. rewrite Hb, Hf.
  unfold correlate, parsePEM.
  rewrite (parsePEM_loop_no_block _ _ _ (empty_holds_no_block Hc)). simpl.
  rewrite Hi, collectUserIDs_filter. fold labels.
  destruct labels as [|label labels']; reflexivity.
Qed.

(** For every pair with the inline format whose matched text is not
    empty: when the buffer [Decode] leaves holds, between bytes the PEM
    decoder passes over, well-formed blocks with DER that parses, and
    ends in bytes without a block (the zero bytes left of a buffer sized
    by [DecodedLen], for one), and there are as many labels as blocks,
    the pair adds one record per block, labelled by position, and the
    read goes on; the count and the error [Decode] returned play no
    part. *)
Theorem readAndParseYAMLFile_inline_certificates :
  forall filePath exprs (rawCerts rawUserIDs : bytes) (written : nat)
         (report status : option error) (segments : list (bytes * bytes))
         (blocks : list Block) (trailing : bytes) (certs : list Certificate),
    Format exprs = YAMLCertFormatBase64 ->
    yq_CombinedOutput filePath (CertMatchExpr exprs) = (rawCerts, None) ->
    rawCerts <> ""%string ->
    base64_StdEncoding_Decode
      (make_bytes (base64_StdEncoding_DecodedLen (String.length rawCerts)))
      rawCerts = (layout segments trailing, written, report) ->
    Forall2 well_laid segments blocks ->
    holds_no_block trailing ->
    Forall2 (fun block c => x509_ParseCertificate (Bytes block) = inr c)
      blocks certs ->
    yq_Output filePath (IDMatchExpr exprs) = (rawUserIDs, status) ->
    let labels :=
      filter (fun id : string => id <> ""%string) (strings_Split rawUserIDs newline) in
    length labels = length certs ->
    forall (more : list YAMLCertRef) output,
      readAndParseYAMLFile_loop filePath (exprs :: more) output =
      readAndParseYAMLFile_loop filePath more
        (output ++
         zip_with (fun c id => {| cert := c; userID := id;
                                  yqMatchExpr := CertMatchExpr exprs |})
           certs labels).
Proof.
  intros filePath exprs rawCerts rawUserIDs written report status segments blocks
    trailing certs Hf Hq Hne Hd Hs Hn Hp Hi labels Hlen more output.
  simpl.
  assert (decodeRawCerts filePath exprs rawCerts = (layout segments trailing, None))
    as Hdec.
  { rewrite (decodeRawCerts_base64 _ _ _ Hf). by rewrite Hd. }
  assert (parsePEM (layout segments trailing) = Returns (certs, None)) as Hpem.
  { rewrite (parsePEM_layout segments blocks trailing Hs Hn).
    by rewrite (parse_blocks_all_parse blocks certs [] Hp). }
  unfold labels in *. rewrite <- collectUserIDs_filter in *.
  by rewrite (yamlPair_labels_by_position _ _ _ _ _ _ _ _ Hq Hne Hdec Hpem Hi Hlen).
Qed.

(** The readers in a world where the identity query exits differently. *)
Lemma parsePEM_loop_with_label_status (status : string -> string -> option error)
    fuel (data : bytes) (certs : list Certificate) :
  parsePEM_loop (ext := with_label_status status ext) fuel data certs =
  parsePEM_loop (ext := ext) fuel data certs.
Proof.
  revert data certs. induction fuel as [|fuel IH]; intros data certs; [reflexivity|].
  rewrite !parsePEM_loop_step.
  change (pem_Decode (Externals := with_label_status status ext) data)
    with (pem_Decode (Externals := ext) data).
  destruct (pem_Decode data) as [[block|] rest]; [|reflexivity].
  change (x509_ParseCertificate (Externals := with_label_status status ext) (Bytes block))
    with (x509_ParseCertificate (Externals := ext) (Bytes block)).
  destruct (x509_ParseCertificate (Bytes block)); [reflexivity | apply IH].
Qed.

Lemma yamlPair_with_label_status (status : string -> string -> option error)
    filePath exprs output :
  yamlPair (ext := with_label_status status ext) filePath exprs output =
  yamlPair (ext := ext) filePath exprs output.
Proof.
  unfold yamlPair.
  change (yq_CombinedOutput (Externals := with_label_status status ext))
    with (yq_CombinedOutput (Externals := ext)).
  destruct (yq_CombinedOutput filePath (CertMatchExpr exprs)) as [rawCerts [e|]];
    [reflexivity|].
  destruct (String.length rawCerts =? 0)%nat; [reflexivity|].
  change (decodeRawCerts (ext := with_label_status status ext) filePath exprs rawCerts)
    with (decodeRawCerts (ext := ext) filePath exprs rawCerts).
  destruct (decodeRawCerts filePath exprs rawCerts) as [decodedCerts [e|]];
    [reflexivity|].
  unfold correlate, parsePEM. rewrite parsePEM_loop_with_label_status.
  destruct (parsePEM_loop _ decodedCerts []) as [[certs [e|]]| |]; simpl;
    try reflexivity.
  change (yq_Output (Externals := with_label_status status ext) filePath
            (IDMatchExpr exprs))
    with ((yq_Output (Externals := ext) filePath (IDMatchExpr exprs)).1,
          status filePath (IDMatchExpr exprs)).
  by destruct (yq_Output filePath (IDMatchExpr exprs)) as [rawUserIDs st].
Qed.

(** For every Structured-Document read and every way the evaluator can
    exit on the identity expressions: with the same standard output, the
    read returns the same thing.  The exit status of the identity query
    has no part in the result. *)
Theorem readAndParseYAMLFile_ignores_label_status :
  forall (status : string -> string -> option error) filePath
         (paths : list YAMLCertRef),
    readAndParseYAMLFile (ext := with_label_status status ext) filePath paths =
    readAndParseYAMLFile (ext := ext) filePath paths.
Proof.
  intros status filePath paths. unfold readAndParseYAMLFile.
  generalize (@nil (parsedCertificate Certificate)) as output.
  induction paths as [|exprs paths IH]; intros output; simpl; [reflexivity|].
  rewrite yamlPair_with_label_status.
  destruct (yamlPair filePath exprs output) as [[output' [e|]]| |]; simpl;
    [reflexivity | apply IH | reflexivity | reflexivity].
Qed.

(** The readers in a world where [Decode] reports differently. *)
Lemma parsePEM_loop_with_decode_report (report : bytes -> bytes -> nat * option error)
    fuel (data : bytes) (certs : list Certificate) :
  parsePEM_loop (ext := with_decode_report report ext) fuel data certs =
  parsePEM_loop (ext := ext) fuel data certs.
Proof.
  revert data certs. induction fuel as [|fuel IH]; intros data certs; [reflexivity|].
  rewrite !parsePEM_loop_step.
  change (pem_Decode (Externals := with_decode_report report ext) data)
    with (pem_Decode (Externals := ext) data).
  destruct (pem_Decode data) as [[block|] rest]; [|reflexivity].
  change (x509_ParseCertificate (Externals := with_decode_report report ext) (Bytes block))
    with (x509_ParseCertificate (Externals := ext) (Bytes block)).
  destruct (x509_ParseCertificate (Bytes block)); [reflexivity | apply IH].
Qed.

Lemma decodeRawCerts_with_decode_report (report : bytes -> bytes -> nat * option error)
    filePath exprs (rawCerts : bytes) :
  decodeRawCerts (ext := with_decode_report report ext) filePath exprs rawCerts =
  decodeRawCerts (ext := ext) filePath exprs rawCerts.
Proof.
  unfold decodeRawCerts.
  destruct (Format exprs =? YAMLCertFormatBase64); [|reflexivity].
  cbv zeta.
  change (base64_StdEncoding_Decode (Externals := with_decode_report report ext)
            (make_bytes (base64_StdEncoding_DecodedLen (String.length rawCerts)))
            rawCerts)
    with ((base64_StdEncoding_Decode (Externals := ext)
             (make_bytes (base64_StdEncoding_DecodedLen (String.length rawCerts)))
             rawCerts).1.1,
          (report (make_bytes (base64_StdEncoding_DecodedLen (String.length rawCerts)))
             rawCerts).1,
          (report (make_bytes (base64_StdEncoding_DecodedLen (String.length rawCerts)))
             rawCerts).2).
  by destruct (base64_StdEncoding_Decode _ rawCerts) as [[dst n] e].
Qed.

Lemma yamlPair_with_decode_report (report : bytes -> bytes -> nat * option error)
    filePath exprs output :
  yamlPair (ext := with_decode_report report ext) filePath exprs output =
  yamlPair (ext := ext) filePath exprs output.
Proof.
  unfold yamlPair.
  change (yq_CombinedOutput (Externals := with_decode_report report ext))
    with (yq_CombinedOutput (Externals := ext)).
  destruct (yq_CombinedOutput filePath (CertMatchExpr exprs)) as [rawCerts [e|]];
    [reflexivity|].
  destruct (String.length rawCerts =? 0)%nat; [reflexivity|].
  rewrite decodeRawCerts_with_decode_report.
  destruct (decodeRawCerts filePath exprs rawCerts) as [decodedCerts [e|]];
    [reflexivity|].
  unfold correlate, parsePEM. rewrite parsePEM_loop_with_decode_report.
  reflexivity.
Qed.

(** For every Structured-Document read and every count and error
    [Decode] can report: with the same bytes left in the buffer, the
    read returns the same thing.  What [Decode] returns has no part in
    the result. *)
Theorem readAndParseYAMLFile_ignores_decode_report :
  forall (report : bytes -> bytes -> nat * option error) filePath
         (paths : list YAMLCertRef),
    readAndParseYAMLFile (ext := with_decode_report report ext) filePath paths =
    readAndParseYAMLFile (ext := ext) filePath paths.
Proof.
  intros report filePath paths. unfold readAndParseYAMLFile.
  generalize (@nil (parsedCertificate Certificate)) as output.
  induction paths as [|exprs paths IH]; intros output; simpl; [reflexivity|].
  rewrite yamlPair_with_decode_report.
  destruct (yamlPair filePath exprs output) as [[output' [e|]]| |]; simpl;
    [reflexivity | apply IH | reflexivity | reflexivity].
Qed.

End StructuredDocumentEncodings.

Section StructuredDocumentComposition.

Context {Certificate : Type} {ext : Externals Certificate}.

Implicit Types (filePath : string) (exprs : YAMLCertRef)
  (output records : list (parsedCertificate Certificate)).

(** The read of one pair alone. *)
Lemma readAndParseYAMLFile_single filePath exprs :
  readAndParseYAMLFile filePath [exprs] =
  match yamlPair filePath exprs [] with
  | Returns (output, None) => Returns (output, None)
  | Returns (_, Some e) => Returns ([], Some e)
  | Panics => Panics
  | OutOfFuel => OutOfFuel
  end.
Proof.
  unfold readAndParseYAMLFile. simpl.
  by destruct (yamlPair filePath exprs []) as [[output [e|]]| |].
Qed.

Lemma readAndParseYAMLFile_loop_concat :
  pem_Decode_consumes ->
  forall filePath (paths : list YAMLCertRef) output records,
    readAndParseYAMLFile_loop filePath paths output = Returns (records, None) <->
    exists each,
      Forall2 (fun exprs r => readAndParseYAMLFile filePath [exprs] = Returns (r, None))
        paths each /\
      records = output ++ concat each.
Proof.
  intros Hc filePath paths.
  induction paths as [|exprs paths IH]; intros output records; simpl.
  - split.
    + intros Hr. inversion Hr; subst. exists []. split; [constructor|].
      by rewrite app_nil_r.
    + intros (each & He & ->). inversion He; subst. simpl. by rewrite app_nil_r.
  - destruct (yamlPair_appends_or_fails Hc filePath exprs) as [[rx Hx]|[e Hx]].
    + rewrite Hx. simpl. rewrite IH. split.
      * intros (each & He & ->). exists (rx :: each). split.
        { constructor; [|done]. rewrite readAndParseYAMLFile_single, Hx. done. }
        simpl. by rewrite <- app_assoc.
      * intros (each & He & ->). inversion He as [|? r0 ? each' H0 He']; subst.
        rewrite readAndParseYAMLFile_single, Hx in H0. inversion H0; subst.
        exists each'. split; [done|]. simpl. by rewrite <- app_assoc.
    + rewrite Hx. simpl. split; [discriminate|].
      intros (each & He & _). inversion He as [|? r0 ? each' H0 He']; subst.
      rewrite readAndParseYAMLFile_single, Hx in H0. discriminate.
Qed.

Lemma readAndParseYAMLFile_loop_first_failure :
  pem_Decode_consumes ->
  forall filePath (before after : list YAMLCertRef) exprs records (e : error),
    Forall (fun x => exists r, readAndParseYAMLFile filePath [x] = Returns (r, None))
      before ->
    readAndParseYAMLFile filePath [exprs] = Returns (records, Some e) ->
    forall output,
      readAndParseYAMLFile_loop filePath (before ++ exprs :: after) output =
      Returns ([], Some e).
Proof.
  intros Hc filePath before after exprs records e Hb Hx.
  induction Hb as [|x before [r Hr] _ IH]; intros output; simpl.
  - rewrite readAndParseYAMLFile_single in Hx.
    destruct (yamlPair_appends_or_fails Hc filePath exprs) as [[rx H]|[e' H]];
      rewrite H in *; [discriminate|].
    by inversion Hx.
  - rewrite readAndParseYAMLFile_single in Hr.
    destruct (yamlPair_appends_or_fails Hc filePath x) as [[rx H]|[e' H]];
      rewrite H in *; [|discriminate].
    simpl. apply IH.
Qed.

(** For every Structured-Document read, under the contract of the
    decoder: the read succeeds exactly when the read of each of its
    pairs alone succeeds, and then its records are those of the pairs
    alone, put one after the other in the order of the pairs; and when
    every pair before some pair succeeds alone and that pair alone
    fails, the read fails with the error of that pair. *)
Theorem readAndParseYAMLFile_pair_by_pair :
  pem_Decode_consumes ->
  forall filePath (paths : list YAMLCertRef),
    (forall records,
        readAndParseYAMLFile filePath paths = Returns (records, None) <->
        exists each,
          Forall2 (fun exprs r =>
                     readAndParseYAMLFile filePath [exprs] = Returns (r, None))
            paths each /\
          records = concat each) /\
    (forall (before after : list YAMLCertRef) exprs records (e : error),
        paths = before ++ exprs :: after ->
        Forall (fun x => exists r,
                    readAndParseYAMLFile filePath [x] = Returns (r, None)) before ->
        readAndParseYAMLFile filePath [exprs] = Returns (records, Some e) ->
        readAndParseYAMLFile filePath paths = Returns ([], Some e)).
Proof.
  intros Hc filePath paths. split.
  - intros records. unfold readAndParseYAMLFile at 1.
    by rewrite (readAndParseYAMLFile_loop_concat Hc).
  - intros before after exprs records e -> Hb Hx.
    by apply (readAndParseYAMLFile_loop_first_failure Hc _ _ _ _ records e Hb Hx).
Qed.

End StructuredDocumentComposition.

(** * Further runs on the stand-in world *)

Section MoreRuns.

Import Fixture.

(** A block and two more bytes: one certificate, for a buffer of far more
    bytes. *)
Lemma parsePEM_ends_within_buffer_witness :
  exists (certs : list bytes) (err : option error),
    parsePEM (ext := world nothing) (armor "0A" +:+ "xx") = Returns (certs, err) /\
    (length certs <= String.length (armor "0A" +:+ "xx"))%nat /\
    (err <> None -> certs = []).
Proof.
  apply (parsePEM_ends_within_buffer (ext := world nothing)
           (fixture_decode_consumes nothing)).
Defined.

(** A good block, a bad one and a good one again: the error of the bad
    one. *)
Lemma parsePEM_stops_at_first_malformed_block_witness :
  parsePEM (ext := world nothing)
    (concat_bytes [armor "0A"] +:+ armor "1B" +:+ armor "0C") =
  Returns ([], Some (malformedError "x509: malformed certificate")).
Proof.
  apply (parsePEM_stops_at_first_malformed_block (ext := world nothing)
           (fixture_decode_consumes nothing)
           [armor "0A"] [block_of "0A"] ["0A"%string] (armor "1B") (block_of "1B")).
  - repeat constructor; intros rest; reflexivity.
  - repeat constructor.
  - intros rest. reflexivity.
  - reflexivity.
Defined.

(** The client certificate file read directly. *)
Lemma readAndParsePEMFile_wraps_certificates_witness :
  readAndParsePEMFile (ext := world kubeconfig) "/etc/kube/client.crt" =
  Returns (map bare_record ["0C"%string], None) /\
  length (map (bare_record (Certificate := bytes)) ["0C"%string]) =
  length ["0C"%string].
Proof.
  exact (proj2 (readAndParsePEMFile_wraps_certificates (ext := world kubeconfig)
                  "/etc/kube/client.crt") ["0C"%string] eq_refl).
Defined.

(** The secret and the file with the same block. *)
Lemma readAndParseKubeSecret_agrees_with_file_witness :
  readAndParseKubeSecret (ext := world failingLabelQuery) "default/web-tls"
    (Some tlsSecret) =
  readAndParsePEMFile (ext := world failingLabelQuery) "/etc/kube/ca.crt".
Proof.
  apply (readAndParseKubeSecret_agrees_with_file (ext := world failingLabelQuery)
           "/etc/kube/ca.crt" "default/web-tls" tlsSecret (armor "0A"));
    reflexivity.
Defined.

(** The secret with and without a private key next to the certificate. *)
Lemma readAndParseKubeSecret_ignores_other_keys_witness :
  readAndParseKubeSecret (ext := world nothing) "default/web-tls"
    (Some {| Name := Name tlsSecret;
             Data := <["tls.key"%string := "secret"%string]> (Data tlsSecret) |}) =
  readAndParseKubeSecret (ext := world nothing) "default/web-tls" (Some tlsSecret) /\
  readAndParseKubeSecret (ext := world nothing) "default/web-tls"
    (Some {| Name := Name tlsSecret;
             Data := delete "tls.key"%string (Data tlsSecret) |}) =
  readAndParseKubeSecret (ext := world nothing) "default/web-tls" (Some tlsSecret).
Proof.
  apply (readAndParseKubeSecret_ignores_other_keys (ext := world nothing)).
  discriminate.
Defined.

(** The document source fails at its second pair: its other fields are
    what they were, and the certificate it held is gone. *)
Lemma parse_keeps_other_fields_witness :
  path (set_certificates documentSource []) = path documentSource /\
  format (set_certificates documentSource []) = format documentSource /\
  userIDs (set_certificates documentSource []) = userIDs documentSource /\
  yamlPaths (set_certificates documentSource []) = yamlPaths documentSource /\
  kubeSecret (set_certificates documentSource []) = kubeSecret documentSource.
Proof.
  apply (parse_keeps_other_fields (ext := world kubeconfig) documentSource
           (set_certificates documentSource [])
           (Some (labelCountError config 1 2 "clusters.[*].name"))).
  reflexivity.
Defined.

Lemma parse_error_leaves_no_certificates_witness :
  certificates (set_certificates documentSource []) = [].
Proof.
  apply (parse_error_leaves_no_certificates (ext := world kubeconfig) documentSource
           (set_certificates documentSource [])
           (labelCountError config 1 2 "clusters.[*].name")).
  reflexivity.
Defined.

(** The direct-file source parsed, and parsed again. *)
Lemma parse_twice_witness :
  parse (ext := world kubeconfig)
    (set_certificates fileSource (map bare_record ["0A"; "0B"]%string)) =
  Returns (set_certificates fileSource (map bare_record ["0A"; "0B"]%string), None).
Proof.
  apply (parse_twice (ext := world kubeconfig) fileSource). reflexivity.
Defined.

(** The secret source without its secret object panics; with it, it
    returns. *)
Lemma parse_panics_only_without_secret_witness :
  parse (ext := world nothing) danglingSecretSource = Panics /\
  exists cert' err, parse (ext := world nothing) secretSource = Returns (cert', err).
Proof.
  split.
  - apply (proj1 (parse_panics_only_without_secret (ext := world nothing)
                    (fixture_decode_consumes nothing) danglingSecretSource)).
    split; reflexivity.
  - apply (proj2 (parse_panics_only_without_secret (ext := world nothing)
                    (fixture_decode_consumes nothing) secretSource)).
    discriminate.
Defined.

(** The authority file of two blocks, as a direct-file source. *)
Lemma parse_direct_file_of_blocks_witness :
  parse (ext := world kubeconfig) fileSource =
  Returns (set_certificates fileSource (map bare_record ["0A"; "0B"]%string), None).
Proof.
  apply (parse_direct_file_of_blocks (ext := world kubeconfig)
           (fixture_decode_consumes kubeconfig) fileSource
           [armor "0A"; armor "0B"] [block_of "0A"; block_of "0B"]).
  - reflexivity.
  - reflexivity.
  - repeat constructor; intros rest; reflexivity.
  - repeat constructor.
Defined.

(** Two names, one per line. *)
Lemma collectUserIDs_unlines_witness :
  collectUserIDs (unlines ["prod"; "staging"]%string) = ["prod"; "staging"]%string.
Proof.
  apply collectUserIDs_unlines. repeat constructor; discriminate.
Defined.

(** The kubeconfig has no inline certificate: the inline pair in the
    middle of the list changes nothing. *)
Lemma readAndParseYAMLFile_skips_unmatched_pair_witness :
  readAndParseYAMLFile (ext := world kubeconfig) config
    ([userFilePair] ++ clusterInlinePair :: [userFilePair]) =
  readAndParseYAMLFile (ext := world kubeconfig) config
    ([userFilePair] ++ [userFilePair]).
Proof.
  apply (readAndParseYAMLFile_skips_unmatched_pair (ext := world kubeconfig)).
  reflexivity.
Defined.

(** The evaluator cannot open the document. *)
Lemma readAndParseYAMLFile_certificate_query_failure_aborts_witness :
  readAndParseYAMLFile (ext := world missingDocument) config
    ([] ++ clusterFilePair :: [userFilePair]) =
  Returns ([], Some ("exit status 1" +:+ " | stderr: "
                     +:+ "Error: open /etc/kube/config: no such file or directory")).
Proof.
  apply (readAndParseYAMLFile_certificate_query_failure_aborts
           (ext := world missingDocument) config [] [userFilePair] clusterFilePair []);
    reflexivity.
Defined.

(** The client certificate of the kubeconfig, labelled [admin]. *)
Lemma readAndParseYAMLFile_labels_by_position_witness :
  readAndParseYAMLFile (ext := world kubeconfig) config ([] ++ [userFilePair]) =
  Returns ([] ++ [{| cert := "0C"%string; userID := "admin";
                     yqMatchExpr := "users.[*].user.client-certificate" |}], None).
Proof.
  apply (readAndParseYAMLFile_labels_by_position (ext := world kubeconfig)
           config [] userFilePair [] ("client.crt" +:+ nl) (armor "0C")
           ("admin" +:+ nl) ["0C"%string] None);
    try reflexivity.
  discriminate.
Defined.

Lemma readAndParseYAMLFile_records_are_labelled_witness :
  Forall (fun r : parsedCertificate bytes =>
            one_line (userID r) /\
            exists exprs, exprs ∈ [userFilePair] /\
                          yqMatchExpr r = CertMatchExpr exprs)
    [labelled userFilePair "0C"%string "admin"].
Proof.
  apply (readAndParseYAMLFile_records_are_labelled (ext := world kubeconfig)
           config [userFilePair]).
  reflexivity.
Defined.

(** The pair of the cluster with format 7: one label, no certificate. *)
Lemma readAndParseYAMLFile_unknown_encoding_witness :
  readAndParseYAMLFile_loop (ext := world kubeconfig) config [oddFormatPair] [] =
  Returns ([], Some (labelCountError config 1 0 "clusters.[*].name")).
Proof.
  apply (readAndParseYAMLFile_unknown_encoding (ext := world kubeconfig)
           (fixture_decode_consumes kubeconfig) config oddFormatPair
           ("ca.crt" +:+ nl) ("prod" +:+ nl) None);
    try reflexivity; discriminate.
Defined.

(** The inline certificate of the cluster [prod]: the buffer of 57 bytes
    holds the block of 56 bytes and one zero byte. *)
Lemma readAndParseYAMLFile_inline_certificates_witness :
  readAndParseYAMLFile_loop (ext := world inlineConfig) config [clusterInlinePair] [] =
  Returns ([{| cert := "0A"%string; userID := "prod";
               yqMatchExpr := "clusters.[*].cluster.certificate-authority-data" |}],
           None).
Proof.
  apply (readAndParseYAMLFile_inline_certificates (ext := world inlineConfig)
           config clusterInlinePair inlineText ("prod" +:+ nl) 56 None None
           [(EmptyString, armor "0A")] [block_of "0A"] (make_bytes 1) ["0A"%string]).
  - reflexivity.
  - reflexivity.
  - discriminate.
  - reflexivity.
  - constructor; [|constructor].
    split; [apply passed_over_empty | intros rest; reflexivity].
  - reflexivity.
  - repeat constructor.
  - reflexivity.
  - reflexivity.
Defined.

(** The two pairs of the kubeconfig: the pair of the user alone
    succeeds, the pair of the cluster alone fails, and so does the read
    of both. *)
Lemma readAndParseYAMLFile_pair_by_pair_witness :
  readAndParseYAMLFile (ext := world kubeconfig) config
    ([userFilePair] ++ clusterFilePair :: []) =
  Returns ([], Some (labelCountError config 1 2 "clusters.[*].name")).
Proof.
  apply (proj2 (readAndParseYAMLFile_pair_by_pair (ext := world kubeconfig)
                  (fixture_decode_consumes kubeconfig) config
                  ([userFilePair] ++ clusterFilePair :: []))
           [userFilePair] [] clusterFilePair [] _ eq_refl).
  - repeat constructor. eexists. reflexivity.
  - reflexivity.
Defined.

End MoreRuns.
